(** * sysadmin/apache_request_access_grant.py

    A shallow embedding of the access-grant script: the regular
    expressions it hands to Python's [re] module, the scan of the apache
    configuration file, the parse of the recent access-log lines, the
    operator prompt and the rewrite of the configuration file.

    Python 2 [str] values are byte strings; they are modelled as lists
    of 8-bit characters so that the list library applies to them. *)

From Stdlib Require Import List Ascii Bool Arith ZArith Lia.
From Stdlib Require Import Strings.Byte.
Import ListNotations.

Set Implicit Arguments.

(* ================================================================== *)
(** * Byte strings *)
(* ================================================================== *)

Definition pystr := list ascii.

Module PyStrSyntax.
(** Carrier of the literal notation only: a literal is parsed into
    [lit] and mapped onto [nil] and [cons]. *)
Inductive lit := LNil | LCons (a : ascii) (l : lit).

Fixpoint lit_of_bytes (l : list byte) : lit :=
  match l with
  | [] => LNil
  | b :: l' => LCons (ascii_of_byte b) (lit_of_bytes l')
  end.

Fixpoint bytes_of_lit (s : lit) : list byte :=
  match s with
  | LNil => []
  | LCons a s' => byte_of_ascii a :: bytes_of_lit s'
  end.
End PyStrSyntax.

Declare Scope pystr_scope.
Delimit Scope pystr_scope with py.
#[warnings="-via-type-remapping,-via-type-mismatch"]
String Notation pystr PyStrSyntax.lit_of_bytes PyStrSyntax.bytes_of_lit
  (via PyStrSyntax.lit mapping [[nil] => PyStrSyntax.LNil, [cons] => PyStrSyntax.LCons])
  : pystr_scope.
Open Scope pystr_scope.
Open Scope list_scope.

Definition newline : ascii := "010"%char.
Definition dquote : ascii := "034"%char.
Definition escape : ascii := "027"%char.

(** [a == b] on strings. *)
Fixpoint pystr_eqb (a b : pystr) : bool :=
  match a, b with
  | [], [] => true
  | x :: a', y :: b' => Ascii.eqb x y && pystr_eqb a' b'
  | _, _ => false
  end.

(** [x in l] for a list of strings. *)
Definition py_in (x : pystr) (l : list pystr) : bool :=
  existsb (pystr_eqb x) l.

(** [s.replace('\n', '')] *)
Definition remove_newlines (s : pystr) : pystr :=
  filter (fun c => negb (Ascii.eqb c newline)) s.

(** [''.join(l)] *)
Definition join (l : list pystr) : pystr := List.concat l.

(** [file.readlines()], also the lines a [for line in f] loop sees: every
    line keeps its terminating newline, the last line may lack one. *)
Fixpoint readlines (s : pystr) : list pystr :=
  match s with
  | [] => []
  | c :: s' =>
      if Ascii.eqb c newline then [c] :: readlines s'
      else match readlines s' with
           | [] => [[c]]
           | l :: ls => (c :: l) :: ls
           end
  end.

(** [s.split('\n')]: the pieces between newlines, one more than there are
    newlines. *)
Fixpoint split_newline (s : pystr) : list pystr :=
  match s with
  | [] => [[]]
  | c :: s' =>
      if Ascii.eqb c newline then [] :: split_newline s'
      else match split_newline s' with
           | [] => [[c]]
           | l :: ls => (c :: l) :: ls
           end
  end.

(** [list.insert(i, x)] for a non-negative index: an index beyond the end
    appends. *)
Definition list_insert {A} (i : nat) (x : A) (l : list A) : list A :=
  firstn i l ++ x :: skipn i l.

(* ================================================================== *)
(** * Character classes of the [re] module (byte patterns, no LOCALE or
      UNICODE flag) *)
(* ================================================================== *)

Definition code (c : ascii) : nat := nat_of_ascii c.

(** [\d] *)
Definition is_digit (c : ascii) : bool := (48 <=? code c) && (code c <=? 57).

(** [\s]: space, tab, newline, return, form feed, vertical tab. *)
Definition is_space (c : ascii) : bool :=
  (code c =? 32) || ((9 <=? code c) && (code c <=? 13)).

(** [\S] *)
Definition non_space (c : ascii) : bool := negb (is_space c).

(** [.] without DOTALL *)
Definition dot (c : ascii) : bool := negb (Ascii.eqb c newline).

(** [[^x]] *)
Definition other_than (x : ascii) (c : ascii) : bool := negb (Ascii.eqb c x).

(** [[xy]] *)
Definition one_of (x y : ascii) (c : ascii) : bool := Ascii.eqb c x || Ascii.eqb c y.

Definition exactly (x : ascii) (c : ascii) : bool := Ascii.eqb c x.

(** The lower-casing of the IGNORECASE flag on byte patterns: ASCII
    letters only. *)
Definition lower (c : ascii) : ascii :=
  if (65 <=? code c) && (code c <=? 90) then ascii_of_nat (code c + 32) else c.

Definition exactly_i (x : ascii) (c : ascii) : bool := Ascii.eqb (lower c) (lower x).

(* ================================================================== *)
(** * Regular expressions: syntax, backtracking matcher, [re.search] *)
(* ================================================================== *)

(** The fragment of the pattern language the script uses.  Every
    quantifier in its patterns ([+], [*], [*?], [{1,3}]) applies to a
    single character class, which is what [Rep] holds. *)
Inductive regex : Type :=
| Eps : regex
| Cls (p : ascii -> bool)
| Cat (r1 r2 : regex)
| Rep (greedy : bool) (lo : nat) (hi : option nat) (p : ascii -> bool)
| Grp (n : nat) (r : regex).

Declare Scope regex_scope.
Delimit Scope regex_scope with re.
Bind Scope regex_scope with regex.
Infix "·" := Cat (at level 41, right associativity) : regex_scope.

Definition plus (p : ascii -> bool) : regex := Rep true 1 None p.
Definition star (p : ascii -> bool) : regex := Rep true 0 None p.
Definition star_lazy (p : ascii -> bool) : regex := Rep false 0 None p.
Definition between (lo hi : nat) (p : ascii -> bool) : regex := Rep true lo (Some hi) p.

(** A run of literal characters. *)
Fixpoint literal (s : pystr) : regex :=
  match s with
  | [] => Eps
  | c :: s' => Cat (Cls (exactly c)) (literal s')
  end.

(** The same under [re.I]. *)
Fixpoint literal_i (s : pystr) : regex :=
  match s with
  | [] => Eps
  | c :: s' => Cat (Cls (exactly_i c)) (literal_i s')
  end.

(** Captured groups, most recently closed first. *)
Definition captures := list (nat * pystr).

Definition room (hi : option nat) : bool :=
  match hi with Some 0 => false | _ => true end.

Section Matcher.
Variable R : Type.

(** A repetition may stop once its lower bound is used up. *)
Definition rep_stop (lo : nat) (s : pystr) (k : pystr -> option R) : option R :=
  match lo with 0 => k s | S _ => None end.

(** Greedy repetition: take characters while allowed, give back one at
    a time. *)
Fixpoint rep_greedy (p : ascii -> bool) (lo : nat) (hi : option nat)
         (s : pystr) (k : pystr -> option R) : option R :=
  match s with
  | c :: s' =>
      if p c && room hi then
        match rep_greedy p (pred lo) (option_map pred hi) s' k with
        | Some res => Some res
        | None => rep_stop lo s k
        end
      else rep_stop lo s k
  | [] => rep_stop lo s k
  end.

(** Lazy repetition: try the rest of the pattern first, take one more
    character on failure. *)
Fixpoint rep_lazy (p : ascii -> bool) (lo : nat) (hi : option nat)
         (s : pystr) (k : pystr -> option R) : option R :=
  match rep_stop lo s k with
  | Some res => Some res
  | None =>
      match s with
      | c :: s' =>
          if p c && room hi then rep_lazy p (pred lo) (option_map pred hi) s' k
          else None
      | [] => None
      end
  end.

(** Match [r] at the head of [s]; [k] is what remains of the pattern. *)
Fixpoint re_match (r : regex) (s : pystr) (c : captures)
         (k : pystr -> captures -> option R) : option R :=
  match r with
  | Eps => k s c
  | Cls p =>
      match s with
      | a :: s' => if p a then k s' c else None
      | [] => None
      end
  | Cat r1 r2 => re_match r1 s c (fun s' c' => re_match r2 s' c' k)
  | Rep true lo hi p => rep_greedy p lo hi s (fun s' => k s' c)
  | Rep false lo hi p => rep_lazy p lo hi s (fun s' => k s' c)
  | Grp n r1 =>
      re_match r1 s c
        (fun s' c' => k s' ((n, firstn (length s - length s') s) :: c'))
  end.
End Matcher.

(** The number of groups of a pattern. *)
Fixpoint re_groups (r : regex) : nat :=
  match r with
  | Eps | Cls _ | Rep _ _ _ _ => 0
  | Cat r1 r2 => Nat.max (re_groups r1) (re_groups r2)
  | Grp n r1 => Nat.max n (re_groups r1)
  end.

Record MatchObject : Type := { m_groups : nat; m_captures : captures }.

(** Leftmost match: the start positions are tried from the left. *)
Fixpoint search_from (r : regex) (s : pystr) : option captures :=
  match re_match r s [] (fun _ c => Some c) with
  | Some c => Some c
  | None =>
      match s with
      | [] => None
      | _ :: s' => search_from r s'
      end
  end.

(** [re.search(pattern, string)]: a match object or [None]. *)
Definition re_search (r : regex) (s : pystr) : option MatchObject :=
  match search_from r s with
  | Some c => Some {| m_groups := re_groups r; m_captures := c |}
  | None => None
  end.

Fixpoint lookup_group (n : nat) (c : captures) : option pystr :=
  match c with
  | [] => None
  | (m, v) :: c' => if m =? n then Some v else lookup_group n c'
  end.

(** [m.group(n)] for [n >= 1]; a group that took no part in the match
    has no text. *)
Definition group (m : MatchObject) (n : nat) : pystr :=
  match lookup_group n (m_captures m) with
  | Some v => v
  | None => []
  end.

(* ================================================================== *)
(** * The script's patterns *)
(* ================================================================== *)

Module Patterns.
Local Open Scope regex_scope.

(** [accessLogRegex].  With DQ for the double quote character and
    [x]{0,} for the starred class (written with a star in the source):
    (\S+) (\S+) (\S+) \[([^:]+):(\d+:\d+:\d+) ([^\]]+)\] DQ(\S+) (.{0,}?) (\S+)DQ
    (\S+) (\S+) DQ([^DQ]{0,})DQ DQ([^DQ]{0,})DQ *)
Definition accessLogRegex : regex :=
  Grp 1 (plus non_space) · literal " " ·
  Grp 2 (plus non_space) · literal " " ·
  Grp 3 (plus non_space) · literal " [" ·
  Grp 4 (plus (other_than ":")) · literal ":" ·
  Grp 5 (plus is_digit · literal ":" · plus is_digit · literal ":" · plus is_digit) ·
  literal " " ·
  Grp 6 (plus (other_than "]")) · literal "] " · Cls (exactly dquote) ·
  Grp 7 (plus non_space) · literal " " ·
  Grp 8 (star_lazy dot) · literal " " ·
  Grp 9 (plus non_space) · Cls (exactly dquote) · literal " " ·
  Grp 10 (plus non_space) · literal " " ·
  Grp 11 (plus non_space) · literal " " · Cls (exactly dquote) ·
  Grp 12 (star (other_than dquote)) · Cls (exactly dquote) · literal " " ·
  Cls (exactly dquote) ·
  Grp 13 (star (other_than dquote)) · Cls (exactly dquote).

(** [ipRegex]: ([0-9]{1,3}\.[0-9]{1,3}\.[0-9]{1,3}\.[0-9]{1,3}) *)
Definition ipRegex : regex :=
  Grp 1 (between 1 3 is_digit · literal "." · between 1 3 is_digit · literal "." ·
         between 1 3 is_digit · literal "." · between 1 3 is_digit).

(** '[Aa][lL][lL][oO][wW] [fF][rR][oO][mM] ' + ipRegex *)
Definition allowFromRegex : regex :=
  Cls (one_of "A" "a") · Cls (one_of "l" "L") · Cls (one_of "l" "L") ·
  Cls (one_of "o" "O") · Cls (one_of "w" "W") · literal " " ·
  Cls (one_of "f" "F") · Cls (one_of "r" "R") · Cls (one_of "o" "O") ·
  Cls (one_of "m" "M") · literal " " · ipRegex.

Definition beginScriptSection : pystr := "# begin auto-script section {{{".
Definition endScriptSection : pystr := "# end auto-script section }}}".
End Patterns.
Export Patterns.

(* ================================================================== *)
(** * Python 2 values and their ordering *)
(* ================================================================== *)

#[warnings="-register-all"]
Inductive pyval : Type :=
| PyNone : pyval
| PyInt (z : Z)
| PyStr (s : pystr)
| PyTuple (l : list pyval)
| PyList (l : list pyval).

(** [strcmp] on byte strings. *)
Fixpoint str_compare (a b : pystr) : comparison :=
  match a, b with
  | [], [] => Eq
  | [], _ :: _ => Lt
  | _ :: _, [] => Gt
  | x :: a', y :: b' =>
      match Nat.compare (code x) (code y) with
      | Eq => str_compare a' b'
      | c => c
      end
  end.

(** The name under which Python 2 orders values of different types: the
    empty name for numbers, the type's name otherwise. *)
Definition cmp_name (v : pyval) : pystr :=
  match v with
  | PyNone => "NoneType"
  | PyInt _ => []
  | PyStr _ => "str"
  | PyTuple _ => "tuple"
  | PyList _ => "list"
  end.

(** Python 2's three-way comparison: values of one type by their own
    order, [None] below everything, otherwise by [cmp_name]. *)
Fixpoint py_cmp (a b : pyval) {struct a} : comparison :=
  match a, b with
  | PyNone, PyNone => Eq
  | PyNone, _ => Lt
  | _, PyNone => Gt
  | PyInt x, PyInt y => Z.compare x y
  | PyStr x, PyStr y => str_compare x y
  | PyTuple xs, PyTuple ys =>
      (fix lex (xs ys : list pyval) {struct xs} : comparison :=
         match xs, ys with
         | [], [] => Eq
         | [], _ :: _ => Lt
         | _ :: _, [] => Gt
         | x :: xs', y :: ys' =>
             match py_cmp x y with Eq => lex xs' ys' | c => c end
         end) xs ys
  | PyList xs, PyList ys =>
      (fix lex (xs ys : list pyval) {struct xs} : comparison :=
         match xs, ys with
         | [], [] => Eq
         | [], _ :: _ => Lt
         | _ :: _, [] => Gt
         | x :: xs', y :: ys' =>
             match py_cmp x y with Eq => lex xs' ys' | c => c end
         end) xs ys
  | _, _ => str_compare (cmp_name a) (cmp_name b)
  end.

(** [a > b] *)
Definition py_gt (a b : pyval) : bool :=
  match py_cmp a b with Gt => true | _ => false end.

(** [m.groups()]: the tuple of all the pattern's groups, [None] for a
    group that took no part in the match. *)
Definition groups (m : MatchObject) : pyval :=
  PyTuple (map (fun n => match lookup_group n (m_captures m) with
                         | Some v => PyStr v
                         | None => PyNone
                         end)
               (seq 1 (m_groups m))).

(* ================================================================== *)
(** * The world the script runs in *)
(* ================================================================== *)

Inductive event : Type :=
| Print (v : pyval)          (* a [print] statement *)
| RawInput (prompt : pystr)  (* [raw_input] showed its prompt and read a line *)
| Popen (cmd : pystr).       (* a shell command was run *)

Record World : Type := {
  files : pystr -> option pystr;   (* regular files by path *)
  backup_dir : bool;               (* can files be created under backup/ *)
  shell : pystr -> pystr;          (* standard output of a shell command *)
  stdin : list pystr;              (* the lines the operator will type *)
  epoch : pystr;                   (* [str(time.time())] *)
  ctimes : nat -> pystr;           (* [datetime.datetime.now().ctime()], by call *)
  ticks : nat;                     (* calls of [ctime] so far *)
  trace : list event               (* what happened, oldest first *)
}.

Inductive exn : Type := IndexError | IOError | EOFError.

(** How a piece of the script ends: normally, by [sys.exit()], by an
    uncaught exception, or (for the model of a loop only) out of fuel. *)
Inductive result (A : Type) : Type :=
| Ret (a : A)
| SysExit
| Raise (e : exn)
| OutOfFuel.
Arguments SysExit {A}.
Arguments Raise {A} e.
Arguments OutOfFuel {A}.

Definition M (A : Type) : Type := World -> result A * World.

Definition ret {A} (a : A) : M A := fun w => (Ret a, w).

Definition bind {A B} (c : M A) (k : A -> M B) : M B :=
  fun w =>
    match c w with
    | (Ret a, w') => k a w'
    | (SysExit, w') => (SysExit, w')
    | (Raise e, w') => (Raise e, w')
    | (OutOfFuel, w') => (OutOfFuel, w')
    end.

Declare Scope py_scope.
Delimit Scope py_scope with M.
Notation "x <- c ;; k" := (bind c (fun x => k))
  (at level 61, c at next level, right associativity) : py_scope.
Notation "c ;; k" := (bind c (fun _ => k))
  (at level 61, right associativity) : py_scope.
Open Scope py_scope.

Definition sys_exit {A} : M A := fun w => (SysExit, w).
Definition raise {A} (e : exn) : M A := fun w => (Raise e, w).

Definition log_event (e : event) (w : World) : World :=
  {| files := files w; backup_dir := backup_dir w; shell := shell w;
     stdin := stdin w; epoch := epoch w; ctimes := ctimes w; ticks := ticks w;
     trace := trace w ++ [e] |}.

Definition set_file (path data : pystr) (w : World) : World :=
  {| files := fun p => if pystr_eqb p path then Some data else files w p;
     backup_dir := backup_dir w; shell := shell w;
     stdin := stdin w; epoch := epoch w; ctimes := ctimes w; ticks := ticks w;
     trace := trace w |}.

(** [print s] *)
Definition print (s : pystr) : M unit := fun w => (Ret tt, log_event (Print (PyStr s)) w).

(** [print v] for any value. *)
Definition print_val (v : pyval) : M unit := fun w => (Ret tt, log_event (Print v) w).

Fixpoint print_all (l : list pystr) : M unit :=
  match l with
  | [] => ret tt
  | s :: l' => print s ;; print_all l'
  end.

(** [os.path.isfile(path)] *)
Definition os_path_isfile (path : pystr) : M bool :=
  fun w => (Ret (match files w path with Some _ => true | None => false end), w).

(** [str(time.time())] *)
Definition time_time : M pystr := fun w => (Ret (epoch w), w).

(** [datetime.datetime.now().ctime()] *)
Definition now_ctime : M pystr :=
  fun w => (Ret (ctimes w (ticks w)),
            {| files := files w; backup_dir := backup_dir w; shell := shell w;
               stdin := stdin w; epoch := epoch w; ctimes := ctimes w;
               ticks := S (ticks w); trace := trace w |}).

(** [shutil.copy(src, dst)] with [dst] under backup/. *)
Definition shutil_copy (src dst : pystr) : M unit :=
  fun w =>
    match files w src with
    | Some data => if backup_dir w then (Ret tt, set_file dst data w) else (Raise IOError, w)
    | None => (Raise IOError, w)
    end.

(** [open(path, 'r')] followed by reading the whole file. *)
Definition read_file (path : pystr) : M pystr :=
  fun w =>
    match files w path with
    | Some data => (Ret data, w)
    | None => (Raise IOError, w)
    end.

(** [open(path, 'r+b')], [f.write(data)], [f.close()]: the bytes are
    written over the file from its start; what the old contents had
    beyond them stays. *)
Definition overwrite_file (path data : pystr) : M unit :=
  fun w =>
    match files w path with
    | Some old => (Ret tt, set_file path (data ++ skipn (length data) old) w)
    | None => (Raise IOError, w)
    end.

(** [subprocess.Popen(cmd, shell=True, stdout=PIPE).stdout.read()] *)
Definition popen_read (cmd : pystr) : M pystr :=
  fun w => (Ret (shell w cmd), log_event (Popen cmd) w).

(** [raw_input(prompt)] *)
Definition raw_input (prompt : pystr) : M pystr :=
  fun w =>
    match stdin w with
    | l :: rest =>
        (Ret l,
         {| files := files w; backup_dir := backup_dir w; shell := shell w;
            stdin := rest; epoch := epoch w; ctimes := ctimes w; ticks := ticks w;
            trace := trace w ++ [RawInput prompt] |})
    | [] => (Raise EOFError, log_event (RawInput prompt) w)
    end.

(* ================================================================== *)
(** * The script *)
(* ================================================================== *)

Module bcolors.
Definition CLEARALL : pystr := escape :: "[0m".
Definition BG_RED : pystr := escape :: "[41m".
End bcolors.

(** [class IpRequest]: the class-level defaults, which an instance shows
    for every field the script does not assign. *)
Record IpRequest : Type := {
  ip : pystr;
  identd : pystr;
  remoteUser : pystr;
  date : pystr;
  time : pystr;
  timezone : pystr;
  request : pystr;
  status : pystr;
  size : Z;
  userAgent : pystr
}.

Definition configFilePath : pystr := "/etc/apache2/sites-available/default".
Definition logFilePath : pystr := "/var/log/apache2/access.log".
Definition recentRequestCommand : pystr :=
  "tail '" ++ logFilePath ++ "' | grep '/request_access'".

(** ** Parsing the config file (the [for line in f] loop) *)

Record ScanState : Type := {
  safety : nat;
  insideScriptSection : nat;
  lines : list pystr;
  authorizedIps : list pystr;
  scan_out : list pystr           (* what the loop printed *)
}.

Definition scan_init : ScanState :=
  {| safety := 0; insideScriptSection := 0; lines := []; authorizedIps := [];
     scan_out := [] |}.

(** [re.search(marker, line, re.I)] used as a condition. *)
Definition has_marker (marker line : pystr) : bool :=
  match re_search (literal_i marker) line with Some _ => true | None => false end.

(** The part of the loop body under [if insideScriptSection == 1]. *)
Definition scan_inside (st : ScanState) (line : pystr) : ScanState :=
  let lines' := lines st ++ [remove_newlines line] in
  match re_search allowFromRegex line with
  | Some ip =>
      if py_gt (groups ip) (PyInt 1) then
        let ipToAdd := group ip 1 in
        if py_in ipToAdd (authorizedIps st) then
          {| safety := safety st; insideScriptSection := insideScriptSection st;
             lines := lines'; authorizedIps := authorizedIps st;
             scan_out := scan_out st ++
                         ["Skipping duplicate ip for authorized list: " ++ ipToAdd] |}
        else
          {| safety := safety st; insideScriptSection := insideScriptSection st;
             lines := lines'; authorizedIps := authorizedIps st ++ [group ip 1];
             scan_out := scan_out st ++
                         ["Adding ip address to authorized list: " ++ ipToAdd] |}
      else
        {| safety := safety st; insideScriptSection := insideScriptSection st;
           lines := lines'; authorizedIps := authorizedIps st; scan_out := scan_out st |}
  | None =>
      {| safety := safety st; insideScriptSection := insideScriptSection st;
         lines := lines'; authorizedIps := authorizedIps st; scan_out := scan_out st |}
  end.

(** One turn of the loop. *)
Definition scan_step (st : ScanState) (line : pystr) : ScanState :=
  if has_marker beginScriptSection line then
    (* safety += 1; insideScriptSection = 1; continue *)
    {| safety := safety st + 1; insideScriptSection := 1; lines := lines st;
       authorizedIps := authorizedIps st; scan_out := scan_out st |}
  else
    let st1 :=
      if has_marker endScriptSection line then
        {| safety := safety st + 1; insideScriptSection := 0; lines := lines st;
           authorizedIps := authorizedIps st; scan_out := scan_out st |}
      else st in
    if insideScriptSection st1 =? 1 then scan_inside st1 line else st1.

Definition scan_config (configLines : list pystr) : ScanState :=
  fold_left scan_step configLines scan_init.

(** ** Parsing the access log (the [for line in requests] loop) *)

Definition new_IpRequest : IpRequest :=
  {| ip := []; identd := []; remoteUser := []; date := []; time := [];
     timezone := []; request := []; status := []; size := 0; userAgent := [] |}.

(** The entry built from a match object. *)
Definition entry_of (acc : MatchObject) : IpRequest :=
  {| ip := group acc 1; identd := identd new_IpRequest;
     remoteUser := remoteUser new_IpRequest;
     date := group acc 4; time := group acc 5; timezone := group acc 6;
     request := request new_IpRequest; status := status new_IpRequest;
     size := size new_IpRequest; userAgent := group acc 13 |}.

(** One turn of the loop over [(requestEntries, requestingIps)]. *)
Definition log_step (st : list IpRequest * list pystr) (line : pystr)
  : list IpRequest * list pystr :=
  let (requestEntries, requestingIps) := st in
  match re_search accessLogRegex line with
  | Some acc =>
      if py_gt (groups acc) (PyInt 12) && negb (py_in (group acc 1) requestingIps) then
        let ipEntry := entry_of acc in
        (requestEntries ++ [ipEntry], requestingIps ++ [ip ipEntry])
      else st
  | None => st
  end.

Definition parse_requests (requests : list pystr) : list IpRequest * list pystr :=
  fold_left log_step requests ([], []).

(** [requestingIps[:] = [x for x in requestingIps if not (x in authorizedIps)]] *)
Definition drop_authorized_ips (authorizedIps requestingIps : list pystr) : list pystr :=
  filter (fun x => negb (py_in x authorizedIps)) requestingIps.

(** [requestEntries[:] = [x for x in requestEntries if not (x.ip in authorizedIps)]] *)
Definition drop_authorized_entries (authorizedIps : list pystr)
           (requestEntries : list IpRequest) : list IpRequest :=
  filter (fun x => negb (py_in (ip x) authorizedIps)) requestEntries.

(** The pending requests: the entries of the log lines, less the
    authorized addresses. *)
Definition pending_entries (authorizedIps requests : list pystr) : list IpRequest :=
  drop_authorized_entries authorizedIps (fst (parse_requests requests)).

Definition pending_ips (authorizedIps requests : list pystr) : list pystr :=
  drop_authorized_ips authorizedIps (snd (parse_requests requests)).

(** ** Writing the config file *)

(** The [while True] loop that looks for the line to insert before; the
    fuel bounds the number of turns. *)
Fixpoint find_insertIndex (fuel : nat) (configLines : list pystr) (insertIndex : nat)
  : result nat :=
  match fuel with
  | 0 => OutOfFuel
  | S fuel' =>
      match nth_error configLines insertIndex with
      | None => Raise IndexError
      | Some line =>
          if has_marker endScriptSection line then Ret insertIndex
          else find_insertIndex fuel' configLines (insertIndex + 1)
      end
  end.

(** [newLineComment] for a request, [now] being
    [datetime.datetime.now().ctime()]. *)
Definition comment_line (now : pystr) (item : IpRequest) : pystr :=
  "# allowing ip '" ++ ip item ++ "' on " ++ now ++ ", request via " ++
  userAgent item ++ [newline].

(** [newLine] for a request. *)
Definition allow_line (item : IpRequest) : pystr :=
  "Allow from " ++ ip item ++ [newline].

(** The [for item in requestEntries] loop that builds [newContent]. *)
Fixpoint build_newContent (requestEntries : list IpRequest) (newContent : pystr)
  : M pystr :=
  match requestEntries with
  | [] => ret newContent
  | item :: rest =>
      now <- now_ctime ;;
      let newLineComment := comment_line now item in
      let newLine := allow_line item in
      build_newContent rest (newContent ++ [newline] ++ newLineComment ++ newLine)
  end.

(** From [print "Adding ip address to apache config..."] to the end. *)
Definition write_config (configLines : list pystr) (requestEntries : list IpRequest)
  : M unit :=
  print "Adding ip address to apache config..." ;;
  _ <- read_file configFilePath ;;        (* open(configFilePath, 'r+b') *)
  insertIndex <- (fun w => (find_insertIndex (S (length configLines)) configLines 1, w)) ;;
  newContent <- build_newContent requestEntries [] ;;
  let configLines := list_insert insertIndex newContent configLines in
  let configLines := join configLines in
  overwrite_file configFilePath configLines ;;
  print "Restarting apache" ;;
  _ <- popen_read "service apache2 restart" ;;
  ret tt.

(** ** The whole script, in the order of its statements *)

(** [configFileExists = os.path.isfile(configFilePath)] and the test on it. *)
Definition check_config_exists : M unit :=
  configFileExists <- os_path_isfile configFilePath ;;
  if configFileExists then print "Found config file."
  else print (bcolors.BG_RED ++ "Could not find config file" ++ bcolors.CLEARALL) ;;
       sys_exit.

(** The backup under backup/ and the test that it is there. *)
Definition backup_config : M unit :=
  currentTime <- time_time ;;
  let backupPath := "backup/" ++ currentTime in
  shutil_copy configFilePath backupPath ;;
  backupExists <- os_path_isfile backupPath ;;
  if backupExists then print "Created config backup."
  else print (bcolors.BG_RED ++ "Could not backup config file" ++ bcolors.CLEARALL) ;;
       sys_exit.

(** From [print "Parsing config file"] to the test of [safety]; yields
    the scan's variables and [configLines]. *)
Definition parse_config : M (ScanState * list pystr) :=
  print "Parsing config file" ;;
  f <- read_file configFilePath ;;
  let st := scan_config (readlines f) in
  print_all (scan_out st) ;;
  let configLines := readlines f in
  if negb (safety st =? 2) then
    print "Error parsing config file. Should have exactly one begin and end script section." ;;
    sys_exit
  else ret (st, configLines).

(** From [print "Parsing access log."] to the test of
    [len(requestingIps)]; yields [requestEntries] and [requestingIps]. *)
Definition parse_access_log (authorizedIps : list pystr)
  : M (list IpRequest * list pystr) :=
  print "Parsing access log." ;;
  requests <- popen_read recentRequestCommand ;;
  let requests := split_newline requests in
  let requestingIps := pending_ips authorizedIps requests in
  let requestEntries := pending_entries authorizedIps requests in
  if negb (0 <? length requestingIps) then
    print "Could not find any new requests" ;; sys_exit
  else ret (requestEntries, requestingIps).

(** The prompt and the test of the answer. *)
Definition prompt_operator (requestingIps : list pystr) : M unit :=
  print "Requesting ips are as follows: " ;;
  print_val (PyList (map PyStr requestingIps)) ;;
  cont <- raw_input "Allow ips [y/n]? " ;;
  if negb (pystr_eqb cont "y" || pystr_eqb cont "Y") then
    print "Exiting" ;; sys_exit
  else ret tt.

Definition main : M unit :=
  check_config_exists ;;
  backup_config ;;
  parsed <- parse_config ;;
  let st := fst parsed in
  let configLines := snd parsed in
  requested <- parse_access_log (authorizedIps st) ;;
  let requestEntries := fst requested in
  let requestingIps := snd requested in
  prompt_operator requestingIps ;;
  write_config configLines requestEntries.

(* ================================================================== *)
(** * The vocabulary of the statements *)
(* ================================================================== *)

(** [log_step] with the guard [acc.groups() > 12] taken out. *)
Definition log_step_unguarded (st : list IpRequest * list pystr) (line : pystr)
  : list IpRequest * list pystr :=
  match re_search accessLogRegex line with
  | Some acc =>
      if negb (py_in (group acc 1) (snd st)) then
        (fst st ++ [entry_of acc], snd st ++ [group acc 1])
      else st
  | None => st
  end.

(** [scan_inside] with the guard [ip.groups() > 1] taken out. *)
Definition scan_inside_unguarded (st : ScanState) (line : pystr) : ScanState :=
  let lines' := lines st ++ [remove_newlines line] in
  match re_search allowFromRegex line with
  | Some ip =>
      if py_in (group ip 1) (authorizedIps st) then
        {| safety := safety st; insideScriptSection := insideScriptSection st;
           lines := lines'; authorizedIps := authorizedIps st;
           scan_out := scan_out st ++
                       ["Skipping duplicate ip for authorized list: " ++ group ip 1] |}
      else
        {| safety := safety st; insideScriptSection := insideScriptSection st;
           lines := lines'; authorizedIps := authorizedIps st ++ [group ip 1];
           scan_out := scan_out st ++
                       ["Adding ip address to authorized list: " ++ group ip 1] |}
  | None =>
      {| safety := safety st; insideScriptSection := insideScriptSection st;
         lines := lines'; authorizedIps := authorizedIps st; scan_out := scan_out st |}
  end.

(** What the loop over the log lines maintains. *)
Record log_inv (requests : list pystr) (st : list IpRequest * list pystr) : Prop := {
  inv_ips : snd st = map ip (fst st);
  inv_nodup : NoDup (snd st);
  inv_seen : forall line acc,
      In line requests -> re_search accessLogRegex line = Some acc ->
      In (group acc 1) (snd st);
  inv_first : forall e,
      In e (fst st) ->
      exists l1 line l2 acc,
        requests = l1 ++ line :: l2 /\
        re_search accessLogRegex line = Some acc /\
        e = entry_of acc /\
        forall line' acc', In line' l1 ->
                           re_search accessLogRegex line' = Some acc' ->
                           group acc' 1 <> ip e
}.

Definition is_begin (line : pystr) : bool := has_marker beginScriptSection line.
Definition is_end (line : pystr) : bool := has_marker endScriptSection line.

(** How many lines satisfy [f]. *)
Definition count_lines (f : pystr -> bool) (l : list pystr) : nat :=
  length (filter f l).

Definition no_marker (line : pystr) : Prop :=
  is_begin line = false /\ is_end line = false.

(** A config file with a valid managed region: one line with the begin
    marker, later one line with the end marker, and no marker on any
    other line.  [inside] are the lines strictly between the two. *)
Record managed_region (configLines before : list pystr) (b : pystr)
       (inside : list pystr) (e : pystr) (after : list pystr) : Prop := {
  region_split : configLines = before ++ b :: inside ++ e :: after;
  region_begin : is_begin b = true;
  region_begin_only : is_end b = false;
  region_end : is_end e = true;
  region_end_only : is_begin e = false;
  region_before : Forall no_marker before;
  region_inside : Forall no_marker inside;
  region_after : Forall no_marker after
}.

(** The address an [Allow from] line grants, if the line is one. *)
Definition allowed_ip (line : pystr) : option pystr :=
  match re_search allowFromRegex line with
  | Some m => Some (group m 1)
  | None => None
  end.

Definition no_newline (s : pystr) : Prop := ~ In newline s.

(** A complete line: text without a newline, then the newline. *)
Definition is_line (l : pystr) : Prop :=
  exists body, l = body ++ [newline] /\ no_newline body.

(** The world after some more events. *)
Definition log_events (es : list event) (w : World) : World :=
  {| files := files w; backup_dir := backup_dir w; shell := shell w;
     stdin := stdin w; epoch := epoch w; ctimes := ctimes w; ticks := ticks w;
     trace := trace w ++ es |}.

(** The world after the first two steps have gone well. *)
Definition backed_up (content : pystr) (w : World) : World :=
  log_event (Print (PyStr "Created config backup."))
    (set_file ("backup/" ++ epoch w) content
       (log_event (Print (PyStr "Found config file.")) w)).

(** The world after the config file has been parsed. *)
Definition config_parsed (content : pystr) (w : World) : World :=
  log_events (map (fun s => Print (PyStr s))
                  (scan_out (scan_config (readlines content))))
    (log_event (Print (PyStr "Parsing config file")) (backed_up content w)).

(** The world after the recent requests have been fetched. *)
Definition log_fetched (content : pystr) (w : World) : World :=
  log_event (Popen recentRequestCommand)
    (log_event (Print (PyStr "Parsing access log.")) (config_parsed content w)).

(** The world after the operator has answered. *)
Definition answered (content : pystr) (requestingIps rest : list pystr) (w : World)
  : World :=
  let w' := log_event (Print (PyList (map PyStr requestingIps)))
              (log_event (Print (PyStr "Requesting ips are as follows: "))
                 (log_fetched content w)) in
  {| files := files w'; backup_dir := backup_dir w'; shell := shell w';
     stdin := rest; epoch := epoch w'; ctimes := ctimes w'; ticks := ticks w';
     trace := trace w' ++ [RawInput "Allow ips [y/n]? "] |}.

(** What the loop over the entries appends to [newContent], the clock
    standing at its [t]-th reading: for each entry an empty line, the
    comment and the directive. *)
Fixpoint new_content (clock : nat -> pystr) (t : nat) (es : list IpRequest) : pystr :=
  match es with
  | [] => []
  | item :: rest =>
      ([newline] ++ comment_line (clock t) item ++ allow_line item) ++
      new_content clock (S t) rest
  end.

(** The same as a list of lines. *)
Fixpoint block_lines (clock : nat -> pystr) (t : nat) (es : list IpRequest)
  : list pystr :=
  match es with
  | [] => []
  | item :: rest =>
      [newline] :: comment_line (clock t) item :: allow_line item ::
      block_lines clock (S t) rest
  end.

(** The world after [n] more readings of the clock. *)
Definition ticked (n : nat) (w : World) : World :=
  {| files := files w; backup_dir := backup_dir w; shell := shell w;
     stdin := stdin w; epoch := epoch w; ctimes := ctimes w;
     ticks := n + ticks w; trace := trace w |}.

(** The world after a write step that found its insertion point. *)
Definition written_world (data : pystr) (n : nat) (w : World) : World :=
  log_event (Popen "service apache2 restart")
    (log_event (Print (PyStr "Restarting apache"))
       (set_file configFilePath data
          (ticked n
             (log_event (Print (PyStr "Adding ip address to apache config...")) w)))).

Definition in_range (lo : nat) (hi : option nat) (n : nat) : Prop :=
  lo <= n /\ match hi with Some h => n <= h | None => True end.

(** The strings a pattern denotes. *)
Inductive matches : regex -> pystr -> Prop :=
| matches_eps : matches Eps []
| matches_cls p c : p c = true -> matches (Cls p) [c]
| matches_cat r1 r2 s1 s2 :
    matches r1 s1 -> matches r2 s2 -> matches (Cat r1 r2) (s1 ++ s2)
| matches_rep g lo hi p s :
    Forall (fun c => p c = true) s -> in_range lo hi (length s) ->
    matches (Rep g lo hi p) s
| matches_grp n r s : matches r s -> matches (Grp n r) s.

(** [v] occurs in [s]. *)
Definition infix (v s : pystr) : Prop := exists a b, s = a ++ v ++ b.

(** The groups of a pattern in the order in which a match closes them,
    last first. *)
Fixpoint closing (r : regex) : list nat :=
  match r with
  | Eps | Cls _ | Rep _ _ _ _ => []
  | Cat r1 r2 => closing r2 ++ closing r1
  | Grp n r1 => n :: closing r1
  end.

(** The access-log format stands somewhere in the line: [re.search] does
    not anchor the pattern, so text before and behind is passed over. *)
Definition format_occurs_in (line : pystr) : Prop :=
  exists pre body post, line = pre ++ body ++ post /\ matches accessLogRegex body.

(** The line of the specification's example. *)
Definition example_log_line : pystr :=
  "1.2.3.4 - - [10/Jul/2015:10:00:00 +0000] " ++ [dquote] ++
  "GET /request_access HTTP/1.1" ++ [dquote] ++ " 200 123 " ++ [dquote] ++ "-" ++
  [dquote] ++ " " ++ [dquote] ++ "TestAgent/1.0" ++ [dquote].

(** A log line in the access-log format for a request of the
    request-access page. *)
Definition request_from (address agent : pystr) : pystr :=
  address ++ " - - [10/Jul/2015:10:00:00 +0000] " ++ [dquote] ++
  "GET /request_access HTTP/1.1" ++ [dquote] ++ " 200 123 " ++ [dquote] ++ "-" ++
  [dquote] ++ " " ++ [dquote] ++ agent ++ [dquote].

Definition begin_line : pystr := beginScriptSection ++ [newline].
Definition end_line : pystr := endScriptSection ++ [newline].

(** A config file whose managed region holds one directive and one
    comment. *)
Definition example_config : pystr :=
  join ["<Directory /var/www/>" ++ [newline]; begin_line;
        "Allow from 10.0.0.5" ++ [newline]; "# comment" ++ [newline];
        end_line; "</Directory>" ++ [newline]].

(** A config file with two begin markers and no end marker. *)
Definition two_begin_config : pystr := join [begin_line; begin_line].

(** A world with the given config file, recent requests and operator
    answers. *)
Definition example_world (config log : pystr) (answers : list pystr) : World :=
  {| files := fun p => if pystr_eqb p configFilePath then Some config else None;
     backup_dir := true;
     shell := fun cmd => if pystr_eqb cmd recentRequestCommand then log else [];
     stdin := answers;
     epoch := "1437386400.0";
     ctimes := fun _ => "Mon Jul 20 10:00:00 2015";
     ticks := 0;
     trace := [] |}.

Definition example_entry : IpRequest :=
  {| ip := "9.9.9.9"; identd := []; remoteUser := []; date := "10/Jul/2015";
     time := "10:00:00"; timezone := "+0000"; request := []; status := [];
     size := 0; userAgent := "TestAgent/1.0" |}.

(** The blocks as the specification words them: for each request the
    comment line and the directive, nothing else. *)
Fixpoint two_line_blocks (clock : nat -> pystr) (t : nat) (es : list IpRequest)
  : list pystr :=
  match es with
  | [] => []
  | item :: rest =>
      comment_line (clock t) item :: allow_line item ::
      two_line_blocks clock (S t) rest
  end.

(** [AppendAuthorizations] as the specification words it: the
    concatenation of the two-line blocks right before the end-marker
    line, every other line kept. *)
Definition AppendAuthorizations_spec (fileLines : list pystr) (endIndex : nat)
           (clock : nat -> pystr) (t : nat) (entries : list IpRequest) : list pystr :=
  firstn endIndex fileLines ++ two_line_blocks clock t entries ++
  skipn endIndex fileLines.

(** The lines of the config file after a run. *)
Definition config_lines_after {A} (run : result A * World) : option (list pystr) :=
  match files (snd run) configFilePath with
  | Some written => Some (readlines written)
  | None => None
  end.

(** The groups of a pattern with what each encloses, in the order of
    [closing]. *)
Fixpoint group_patterns (r : regex) : list (nat * regex) :=
  match r with
  | Eps | Cls _ | Rep _ _ _ _ => []
  | Cat r1 r2 => group_patterns r2 ++ group_patterns r1
  | Grp n r1 => (n, r1) :: group_patterns r1
  end.

(** What a capture list holds for the groups of a pattern: group by
    group, a string of what the group encloses. *)
Definition captured (c : captures) (ps : list (nat * regex)) : Prop :=
  Forall2 (fun nv np => fst nv = fst np /\ matches (snd np) (snd nv)) c ps.

Fixpoint lookup_pattern (n : nat) (ps : list (nat * regex)) : option regex :=
  match ps with
  | [] => None
  | (m, r) :: ps' => if m =? n then Some r else lookup_pattern n ps'
  end.

(** One to three decimal digits. *)
Definition octet (d : pystr) : Prop :=
  Forall (fun c => is_digit c = true) d /\ 1 <= length d <= 3.

(** Four such runs with dots between: the form [ipRegex] asks for. *)
Definition dotted_quad (a : pystr) : Prop :=
  exists d1 d2 d3 d4,
    a = d1 ++ "." ++ d2 ++ "." ++ d3 ++ "." ++ d4 /\
    octet d1 /\ octet d2 /\ octet d3 /\ octet d4.

(** [v] equals [m] up to the case of ASCII letters. *)
Definition same_ignoring_case (v m : pystr) : Prop := map lower v = map lower m.

(** A non-empty run of decimal digits. *)
Definition digits (d : pystr) : Prop :=
  Forall (fun c => is_digit c = true) d /\ 1 <= length d.

(** The pending addresses and entries of a run on a world whose config
    file holds [content]. *)
Definition run_ips (content : pystr) (w : World) : list pystr :=
  pending_ips (authorizedIps (scan_config (readlines content)))
              (split_newline (shell w recentRequestCommand)).

Definition run_entries (content : pystr) (w : World) : list IpRequest :=
  pending_entries (authorizedIps (scan_config (readlines content)))
                  (split_newline (shell w recentRequestCommand)).

(** The world in which the operator is asked. *)
Definition asking (content : pystr) (w : World) : World :=
  log_event (Print (PyList (map PyStr (run_ips content w))))
    (log_event (Print (PyStr "Requesting ips are as follows: "))
       (log_fetched content w)).

(** The answers the script takes for a yes. *)
Definition affirmative (answer : pystr) : Prop := answer = "y" \/ answer = "Y".

(** The ways a run of the script can go, each with how it ends and the
    world it leaves. *)
Inductive run_case (w : World) : result unit * World -> Prop :=
| run_no_config :
    files w configFilePath = None ->
    run_case w
      (SysExit,
       log_event (Print (PyStr (bcolors.BG_RED ++ "Could not find config file" ++
                                bcolors.CLEARALL))) w)
| run_no_backup content :
    files w configFilePath = Some content ->
    backup_dir w = false ->
    run_case w (Raise IOError, log_event (Print (PyStr "Found config file.")) w)
| run_malformed content :
    files w configFilePath = Some content ->
    backup_dir w = true ->
    safety (scan_config (readlines content)) <> 2 ->
    run_case w
      (SysExit,
       log_event (Print (PyStr "Error parsing config file. Should have exactly one begin and end script section."))
         (config_parsed content w))
| run_nothing_pending content :
    files w configFilePath = Some content ->
    backup_dir w = true ->
    safety (scan_config (readlines content)) = 2 ->
    run_ips content w = [] ->
    run_case w
      (SysExit,
       log_event (Print (PyStr "Could not find any new requests"))
         (log_fetched content w))
| run_no_answer content :
    files w configFilePath = Some content ->
    backup_dir w = true ->
    safety (scan_config (readlines content)) = 2 ->
    run_ips content w <> [] ->
    stdin w = [] ->
    run_case w
      (Raise EOFError, log_event (RawInput "Allow ips [y/n]? ") (asking content w))
| run_declined content answer rest :
    files w configFilePath = Some content ->
    backup_dir w = true ->
    safety (scan_config (readlines content)) = 2 ->
    run_ips content w <> [] ->
    stdin w = answer :: rest ->
    ~ affirmative answer ->
    run_case w
      (SysExit,
       log_event (Print (PyStr "Exiting"))
         (answered content (run_ips content w) rest w))
| run_overrun content answer rest :
    files w configFilePath = Some content ->
    backup_dir w = true ->
    safety (scan_config (readlines content)) = 2 ->
    run_ips content w <> [] ->
    stdin w = answer :: rest ->
    affirmative answer ->
    find_insertIndex (S (length (readlines content))) (readlines content) 1 =
      Raise IndexError ->
    run_case w
      (Raise IndexError,
       log_event (Print (PyStr "Adding ip address to apache config..."))
         (answered content (run_ips content w) rest w))
| run_written content answer rest i :
    files w configFilePath = Some content ->
    backup_dir w = true ->
    safety (scan_config (readlines content)) = 2 ->
    run_ips content w <> [] ->
    stdin w = answer :: rest ->
    affirmative answer ->
    find_insertIndex (S (length (readlines content))) (readlines content) 1 = Ret i ->
    run_case w
      (Ret tt,
       written_world
         (join (firstn i (readlines content)) ++
          new_content (ctimes w) (ticks w) (run_entries content w) ++
          join (skipn i (readlines content)))
         (length (run_entries content w))
         (answered content (run_ips content w) rest w)).

Definition is_restart (e : event) : bool :=
  match e with
  | Popen cmd => pystr_eqb cmd "service apache2 restart"
  | _ => false
  end.

Definition is_prompt (e : event) : bool :=
  match e with
  | RawInput _ => true
  | _ => false
  end.

(** How often a trace restarts the service, and how often it asks. *)
Definition restarts (tr : list event) : nat := length (filter is_restart tr).
Definition prompts (tr : list event) : nat := length (filter is_prompt tr).

(** The next character, if any, is outside the class. *)
Definition stops (p : ascii -> bool) (s : pystr) : Prop :=
  match s with
  | [] => True
  | c :: _ => p c = false
  end.





(** A line that conforms to the fixed access-log format, as the
    specification words it: the line is a string of the format, from
    its first character to its last. *)
Definition in_log_format (line : pystr) : Prop := matches accessLogRegex line.


(** The example log line with text before and behind it. *)
Definition junk_log_line : pystr :=
  "junk!! " ++ example_log_line ++ " trailing junk".

(* ================================================================== *)
(** * Facts about strings and lists *)
(* ================================================================== *)

Lemma pystr_eqb_eq (a b : pystr) : pystr_eqb a b = true <-> a = b.
Proof.
  revert b. induction a as [|x a IH]; intros [|y b]; simpl; try easy.
  rewrite andb_true_iff, Ascii.eqb_eq, IH. split.
  - now intros [-> ->].
  - intro H. now injection H.
Qed.

Lemma pystr_eqb_refl (a : pystr) : pystr_eqb a a = true.
Proof. now apply pystr_eqb_eq. Qed.

Lemma pystr_eqb_neq (a b : pystr) : pystr_eqb a b = false <-> a <> b.
Proof.
  rewrite <- pystr_eqb_eq. destruct (pystr_eqb a b); split; congruence.
Qed.

Lemma py_in_In (x : pystr) (l : list pystr) : py_in x l = true <-> In x l.
Proof.
  unfold py_in. rewrite existsb_exists. split.
  - intros (y & Hy & E). apply pystr_eqb_eq in E. now subst.
  - intro H. exists x. split; [assumption | apply pystr_eqb_refl].
Qed.

Lemma py_in_not_In (x : pystr) (l : list pystr) : py_in x l = false <-> ~ In x l.
Proof.
  rewrite <- py_in_In. destruct (py_in x l); split; congruence.
Qed.

Lemma fold_left_snoc {A B} (f : A -> B -> A) (l : list B) (x : B) (a : A) :
  fold_left f (l ++ [x]) a = f (fold_left f l a) x.
Proof. now rewrite fold_left_app. Qed.

(* ================================================================== *)
(** * The group-count guards *)
(* ================================================================== *)

(** A tuple is greater than any integer: of two values of different
    types the number is the smaller. *)
Lemma tuple_gt_int (l : list pyval) (n : Z) : py_gt (PyTuple l) (PyInt n) = true.
Proof. reflexivity. Qed.

Lemma groups_gt_int (m : MatchObject) (n : Z) : py_gt (groups m) (PyInt n) = true.
Proof. unfold groups. apply tuple_gt_int. Qed.

Lemma log_step_eq (st : list IpRequest * list pystr) (line : pystr) :
  log_step st line = log_step_unguarded st line.
Proof.
  unfold log_step, log_step_unguarded. destruct st as [es ips].
  destruct (re_search accessLogRegex line) as [acc|]; [|reflexivity].
  rewrite groups_gt_int. reflexivity.
Qed.

Lemma scan_inside_eq (st : ScanState) (line : pystr) :
  scan_inside st line = scan_inside_unguarded st line.
Proof.
  unfold scan_inside, scan_inside_unguarded.
  destruct (re_search allowFromRegex line) as [m|]; [|reflexivity].
  rewrite groups_gt_int. reflexivity.
Qed.

(** C5: on every line on which the search succeeds the guards
    [ip.groups() > 1] and [acc.groups() > 12] compare a tuple with an
    integer and are true, so both loop bodies behave as they would
    without the guard: what they do depends on the match alone. *)
Theorem group_count_guards_vacuous (line : pystr) :
  (forall ip, re_search allowFromRegex line = Some ip ->
              py_gt (groups ip) (PyInt 1) = true) /\
  (forall acc, re_search accessLogRegex line = Some acc ->
               py_gt (groups acc) (PyInt 12) = true) /\
  (forall st, scan_inside st line = scan_inside_unguarded st line) /\
  (forall st, log_step st line = log_step_unguarded st line).
Proof.
  split; [|split; [|split]].
  - intros ip _. apply groups_gt_int.
  - intros acc _. apply groups_gt_int.
  - intro st. apply scan_inside_eq.
  - intro st. apply log_step_eq.
Qed.

(* ================================================================== *)
(** * Pending requests: filtering and deduplication *)
(* ================================================================== *)

Lemma parse_requests_snoc (requests : list pystr) (line : pystr) :
  parse_requests (requests ++ [line]) = log_step (parse_requests requests) line.
Proof. apply fold_left_snoc. Qed.

Lemma parse_requests_inv (requests : list pystr) :
  log_inv requests (parse_requests requests).
Proof.
  induction requests as [|line requests IH] using rev_ind.
  - split; simpl; try easy. constructor.
  - rewrite parse_requests_snoc, log_step_eq.
    destruct IH as [Hips Hnd Hseen Hfirst].
    destruct (parse_requests requests) as [es ips]. simpl in *.
    unfold log_step_unguarded. simpl.
    destruct (re_search accessLogRegex line) as [acc|] eqn:Hacc.
    + destruct (py_in (group acc 1) ips) eqn:Hin; simpl.
      * (* the address has been seen: nothing changes *)
        apply py_in_In in Hin.
        split; simpl; auto.
        -- intros l a Hl Ha. apply in_app_or in Hl. destruct Hl as [Hl|[<-|[]]].
           ++ eauto.
           ++ congruence.
        -- intros e He. destruct (Hfirst e He) as (l1 & l & l2 & a & -> & Ha & -> & Hb).
           exists l1, l, (l2 ++ [line]), a. rewrite <- app_assoc. simpl. auto.
      * (* a new address: one entry more *)
        apply py_in_not_In in Hin.
        split; simpl.
        -- rewrite map_app. simpl. now rewrite Hips.
        -- apply NoDup_app_remove_l with (l := []). simpl.
           apply NoDup_rev in Hnd. rewrite <- (rev_involutive (ips ++ _)).
           apply NoDup_rev. rewrite rev_app_distr. simpl. constructor.
           ++ now rewrite <- in_rev.
           ++ assumption.
        -- intros l a Hl Ha. apply in_or_app. apply in_app_or in Hl.
           destruct Hl as [Hl|[<-|[]]].
           ++ left. eauto.
           ++ right. left. congruence.
        -- intros e He. apply in_app_or in He. destruct He as [He|[<-|[]]].
           ++ destruct (Hfirst e He) as (l1 & l & l2 & a & -> & Ha & -> & Hb).
              exists l1, l, (l2 ++ [line]), a. rewrite <- app_assoc. simpl. auto.
           ++ exists requests, line, [], acc. repeat split; auto.
              intros l' a' Hl' Ha' E. simpl in E. apply Hin. rewrite <- E. eauto.
    + split; simpl; auto.
      * intros l a Hl Ha. apply in_app_or in Hl. destruct Hl as [Hl|[<-|[]]].
        -- eauto.
        -- congruence.
      * intros e He. destruct (Hfirst e He) as (l1 & l & l2 & a & -> & Ha & -> & Hb).
        exists l1, l, (l2 ++ [line]), a. rewrite <- app_assoc. simpl. auto.
Qed.

Lemma drop_authorized_map (authorizedIps : list pystr) (es : list IpRequest) :
  map ip (drop_authorized_entries authorizedIps es) =
  drop_authorized_ips authorizedIps (map ip es).
Proof.
  unfold drop_authorized_entries, drop_authorized_ips.
  induction es as [|e es IH]; simpl; [reflexivity|].
  destruct (py_in (ip e) authorizedIps); simpl; now rewrite IH.
Qed.

(** The two lists the script keeps side by side stay in step. *)
Lemma pending_ips_entries (authorizedIps requests : list pystr) :
  pending_ips authorizedIps requests = map ip (pending_entries authorizedIps requests).
Proof.
  unfold pending_ips, pending_entries. rewrite drop_authorized_map.
  now rewrite (inv_ips (parse_requests_inv requests)).
Qed.


(** C6: an address of the authorized list is never among the pending
    requests, neither in the entries nor in the list of addresses shown
    to the operator, however often the log mentions it. *)
Theorem authorized_never_pending (requests authorizedIps : list pystr) (a : pystr) :
  In a authorizedIps ->
  ~ In a (map ip (pending_entries authorizedIps requests)) /\
  ~ In a (pending_ips authorizedIps requests).
Proof.
  intro Ha. rewrite pending_ips_entries.
  assert (H : ~ In a (map ip (pending_entries authorizedIps requests))).
  { intro Hin. apply in_map_iff in Hin. destruct Hin as (e & <- & He).
    unfold pending_entries, drop_authorized_entries in He.
    apply filter_In in He. destruct He as [_ He].
    apply negb_true_iff, py_in_not_In in He. contradiction. }
  split; exact H.
Qed.


(* ================================================================== *)
(** * The search for the insertion point *)
(* ================================================================== *)

Lemma find_insertIndex_ret (fuel : nat) (configLines : list pystr) (i j : nat) :
  find_insertIndex fuel configLines i = Ret j ->
  i <= j /\
  (exists line, nth_error configLines j = Some line /\
                has_marker endScriptSection line = true) /\
  (forall k line, i <= k < j -> nth_error configLines k = Some line ->
                  has_marker endScriptSection line = false).
Proof.
  revert i. induction fuel as [|fuel IH]; intros i H; simpl in H; [discriminate|].
  destruct (nth_error configLines i) as [line|] eqn:Hi; [|discriminate].
  destruct (has_marker endScriptSection line) eqn:Hm.
  - injection H as <-. split; [lia|]. split; [eauto|]. intros; lia.
  - apply IH in H. destruct H as (Hle & Hj & Hbefore).
    split; [lia|]. split; [assumption|].
    intros k l Hk Hl. destruct (Nat.eq_dec k i) as [->|Hne].
    + congruence.
    + apply (Hbefore k l); [lia | assumption].
Qed.

Lemma find_insertIndex_none (fuel : nat) (configLines : list pystr) (i : nat) :
  length configLines - i < fuel ->
  (forall k line, i <= k -> nth_error configLines k = Some line ->
                  has_marker endScriptSection line = false) ->
  find_insertIndex fuel configLines i = Raise IndexError.
Proof.
  revert i. induction fuel as [|fuel IH]; intros i Hfuel Hno; simpl; [lia|].
  destruct (nth_error configLines i) as [line|] eqn:Hi; [|reflexivity].
  assert (i < length configLines) by (apply nth_error_Some; congruence).
  rewrite (Hno i line (le_n i) Hi).
  apply IH; [lia|]. intros k l Hk. apply Hno. lia.
Qed.

(** With the fuel the script's model gives it, the loop always ends: on
    a line with the end marker or with an [IndexError]. *)
Lemma find_insertIndex_total (fuel : nat) (configLines : list pystr) (i : nat) :
  length configLines - i < fuel ->
  find_insertIndex fuel configLines i <> OutOfFuel.
Proof.
  revert i. induction fuel as [|fuel IH]; intros i Hfuel; simpl; [lia|].
  destruct (nth_error configLines i) as [line|] eqn:Hi; [|discriminate].
  assert (i < length configLines) by (apply nth_error_Some; congruence).
  destruct (has_marker endScriptSection line); [discriminate|].
  apply IH. lia.
Qed.



(* ================================================================== *)
(** * The scan of the config file *)
(* ================================================================== *)

Lemma scan_inside_safety (st : ScanState) (line : pystr) :
  safety (scan_inside st line) = safety st.
Proof.
  rewrite scan_inside_eq. unfold scan_inside_unguarded.
  destruct (re_search allowFromRegex line); [|reflexivity].
  destruct (py_in _ _); reflexivity.
Qed.

Lemma scan_inside_flag (st : ScanState) (line : pystr) :
  insideScriptSection (scan_inside st line) = insideScriptSection st.
Proof.
  rewrite scan_inside_eq. unfold scan_inside_unguarded.
  destruct (re_search allowFromRegex line); [|reflexivity].
  destruct (py_in _ _); reflexivity.
Qed.

(** What one line adds to [safety]: a line with the begin marker counts
    once, whatever else it holds; a line with the end marker counts when
    it has no begin marker. *)
Lemma scan_step_safety (st : ScanState) (line : pystr) :
  safety (scan_step st line) =
  safety st + (if is_begin line || is_end line then 1 else 0).
Proof.
  unfold scan_step, is_begin, is_end.
  destruct (has_marker beginScriptSection line); simpl; [reflexivity|].
  destruct (has_marker endScriptSection line); simpl.
  - reflexivity.
  - destruct (insideScriptSection st =? 1); [rewrite scan_inside_safety|]; lia.
Qed.

Lemma fold_scan_safety (l : list pystr) (st : ScanState) :
  safety (fold_left scan_step l st) =
  safety st + count_lines (fun line => is_begin line || is_end line) l.
Proof.
  revert st. induction l as [|line l IH]; intro st; simpl.
  - unfold count_lines. simpl. lia.
  - rewrite IH, scan_step_safety. unfold count_lines. simpl.
    destruct (is_begin line || is_end line); simpl; lia.
Qed.

(** [safety] ends as the number of lines that hold a marker of either
    kind; the test [safety == 2] looks at nothing else. *)
Lemma scan_config_safety (configLines : list pystr) :
  safety (scan_config configLines) =
  count_lines (fun line => is_begin line || is_end line) configLines.
Proof. unfold scan_config. now rewrite fold_scan_safety. Qed.

Lemma count_lines_app (f : pystr -> bool) (l1 l2 : list pystr) :
  count_lines f (l1 ++ l2) = count_lines f l1 + count_lines f l2.
Proof. unfold count_lines. now rewrite filter_app, length_app. Qed.

Lemma count_lines_none (f : pystr -> bool) (l : list pystr) :
  Forall (fun x => f x = false) l -> count_lines f l = 0.
Proof.
  unfold count_lines. induction 1 as [|x l Hx _ IH]; simpl; [reflexivity|].
  now rewrite Hx.
Qed.

(** A valid managed region has each marker on exactly one line. *)
Lemma managed_region_counts cl before b inside e after :
  managed_region cl before b inside e after ->
  count_lines is_begin cl = 1 /\ count_lines is_end cl = 1.
Proof.
  intros [-> Hb Hb' He He' H1 H2 H3].
  assert (Hbeg : forall l, Forall no_marker l -> count_lines is_begin l = 0).
  { intros l Hl. apply count_lines_none. eapply Forall_impl; [|exact Hl].
    now intros x [Hx _]. }
  assert (Hend : forall l, Forall no_marker l -> count_lines is_end l = 0).
  { intros l Hl. apply count_lines_none. eapply Forall_impl; [|exact Hl].
    now intros x [_ Hx]. }
  split.
  - rewrite count_lines_app, Hbeg by assumption.
    change (b :: inside ++ e :: after) with ([b] ++ inside ++ [e] ++ after).
    rewrite !count_lines_app, (Hbeg inside), (Hbeg after) by assumption.
    unfold count_lines. simpl. rewrite Hb, He'. reflexivity.
  - rewrite count_lines_app, Hend by assumption.
    change (b :: inside ++ e :: after) with ([b] ++ inside ++ [e] ++ after).
    rewrite !count_lines_app, (Hend inside), (Hend after) by assumption.
    unfold count_lines. simpl. rewrite Hb', He. reflexivity.
Qed.

Lemma scan_step_outside (st : ScanState) (line : pystr) :
  no_marker line -> insideScriptSection st = 0 -> scan_step st line = st.
Proof.
  intros [Hb He] Hst. unfold scan_step. fold (is_begin line) (is_end line).
  now rewrite Hb, He, Hst.
Qed.

Lemma fold_scan_outside (l : list pystr) (st : ScanState) :
  Forall no_marker l -> insideScriptSection st = 0 -> fold_left scan_step l st = st.
Proof.
  induction 1 as [|line l Hline _ IH]; intro Hst; simpl; [reflexivity|].
  rewrite scan_step_outside by assumption. now apply IH.
Qed.

Lemma scan_step_inside (st : ScanState) (line : pystr) :
  no_marker line -> insideScriptSection st = 1 ->
  scan_step st line = scan_inside_unguarded st line.
Proof.
  intros [Hb He] Hst. unfold scan_step. fold (is_begin line) (is_end line).
  rewrite Hb, He, Hst. simpl. apply scan_inside_eq.
Qed.

Lemma scan_inside_authorized (st : ScanState) (line : pystr) :
  (forall a, In a (authorizedIps (scan_inside_unguarded st line)) <->
             In a (authorizedIps st) \/ allowed_ip line = Some a) /\
  (NoDup (authorizedIps st) -> NoDup (authorizedIps (scan_inside_unguarded st line))) /\
  insideScriptSection (scan_inside_unguarded st line) = insideScriptSection st.
Proof.
  unfold scan_inside_unguarded, allowed_ip.
  destruct (re_search allowFromRegex line) as [m|].
  - destruct (py_in (group m 1) (authorizedIps st)) eqn:Hin; simpl.
    + apply py_in_In in Hin. repeat split; auto.
      intros [H|H]; [assumption | congruence].
    + apply py_in_not_In in Hin. split; [|split]; [| |reflexivity].
      * intro a. rewrite in_app_iff. simpl. split.
        -- intros [H|[<-|[]]]; auto.
        -- intros [H|H]; [auto | right; left; congruence].
      * intro Hnd. apply NoDup_rev in Hnd.
        rewrite <- (rev_involutive (_ ++ _)). apply NoDup_rev.
        rewrite rev_app_distr. simpl. constructor; [|assumption].
        now rewrite <- in_rev.
  - simpl. repeat split; auto. intros [H|H]; [assumption | discriminate].
Qed.

Lemma fold_scan_inside (l : list pystr) (st : ScanState) :
  Forall no_marker l -> insideScriptSection st = 1 ->
  (forall a, In a (authorizedIps (fold_left scan_step l st)) <->
             In a (authorizedIps st) \/
             exists line, In line l /\ allowed_ip line = Some a) /\
  (NoDup (authorizedIps st) -> NoDup (authorizedIps (fold_left scan_step l st))) /\
  insideScriptSection (fold_left scan_step l st) = 1.
Proof.
  intro Hl. revert st. induction Hl as [|line l Hline _ IH]; intros st Hst; simpl.
  - repeat split; auto. intros [H|(line & [] & _)]. assumption.
  - rewrite scan_step_inside by assumption.
    destruct (scan_inside_authorized st line) as (Hin & Hnd & Hfl).
    destruct (IH (scan_inside_unguarded st line)) as (Hin' & Hnd' & Hfl');
      [congruence|].
    split; [|split]; [| auto | assumption].
    intro a. rewrite Hin', Hin. split.
    + intros [[H|H]|(l' & Hl' & H)]; eauto.
    + intros [H|(l' & [<-|Hl'] & H)]; eauto.
Qed.

(* ================================================================== *)
(** * Lines of a file *)
(* ================================================================== *)

Lemma no_newline_cons (c : ascii) (s : pystr) :
  no_newline (c :: s) <-> Ascii.eqb c newline = false /\ no_newline s.
Proof.
  unfold no_newline. simpl. rewrite Ascii.eqb_neq. intuition congruence.
Qed.

Lemma no_newline_app (s t : pystr) :
  no_newline (s ++ t) <-> no_newline s /\ no_newline t.
Proof. unfold no_newline. rewrite in_app_iff. tauto. Qed.

Lemma is_line_intro (body : pystr) : no_newline body -> is_line (body ++ [newline]).
Proof. intro H. now exists body. Qed.

Lemma readlines_line (l s : pystr) :
  is_line l -> readlines (l ++ s) = l :: readlines s.
Proof.
  intros (body & -> & Hbody). induction body as [|c body IH]; simpl.
  - reflexivity.
  - apply no_newline_cons in Hbody. destruct Hbody as [Hc Hbody].
    rewrite Hc. simpl in IH. now rewrite (IH Hbody).
Qed.

Lemma readlines_lines (ls : list pystr) (s : pystr) :
  Forall is_line ls -> readlines (join ls ++ s) = ls ++ readlines s.
Proof.
  unfold join. induction 1 as [|l ls Hl _ IH]; simpl; [reflexivity|].
  now rewrite <- app_assoc, readlines_line, IH.
Qed.

(** [readlines] cuts the text into complete lines, the last of which may
    lack its newline. *)
Lemma readlines_cons (s x : pystr) (rest : list pystr) :
  readlines s = x :: rest ->
  exists s', s = x ++ s' /\ readlines s' = rest /\
             (is_line x \/ (rest = [] /\ no_newline x)).
Proof.
  revert x rest. induction s as [|c s IH]; intros x rest H; simpl in H; [discriminate|].
  destruct (Ascii.eqb c newline) eqn:Hc.
  - injection H as <- <-. apply Ascii.eqb_eq in Hc. subst c.
    exists s. repeat split. left. exists []. split; [reflexivity | easy].
  - destruct (readlines s) as [|l ls] eqn:Hs.
    + injection H as <- <-. destruct s; [|simpl in Hs].
      * exists []. repeat split. right. split; [reflexivity|].
        apply no_newline_cons. split; [assumption | easy].
      * destruct (Ascii.eqb a newline); [discriminate|].
        destruct (readlines s); discriminate.
    + injection H as <- <-.
      destruct (IH l ls eq_refl) as (s' & -> & Hs' & Hl).
      exists s'. repeat split; [assumption|].
      destruct Hl as [(body & -> & Hbody)|[-> Hl]].
      * left. exists (c :: body). split; [reflexivity|].
        apply no_newline_cons. now split.
      * right. split; [reflexivity|]. apply no_newline_cons. now split.
Qed.

(** The lines put together are the text again. *)
Lemma join_readlines (s : pystr) : join (readlines s) = s.
Proof.
  unfold join. induction s as [|c s IH]; simpl; [reflexivity|].
  destruct (Ascii.eqb c newline); simpl; [now rewrite IH|].
  destruct (readlines s) as [|l ls]; simpl in *.
  - now rewrite <- IH.
  - now rewrite <- IH.
Qed.

(** Cutting the lines of a text in two: the first part are complete
    lines, the second part are the lines of what is left. *)
Lemma readlines_split (s : pystr) (l1 l2 : list pystr) :
  readlines s = l1 ++ l2 -> l2 <> [] ->
  Forall is_line l1 /\ readlines (join l2) = l2.
Proof.
  revert s. induction l1 as [|x l1 IH]; intros s H Hne; simpl in H.
  - split; [constructor|]. now rewrite <- H, join_readlines.
  - apply readlines_cons in H. destruct H as (s' & -> & Hs' & Hx).
    destruct (IH s' Hs' Hne) as [Hl1 Hl2]. split; [|assumption].
    constructor; [|assumption].
    destruct Hx as [Hx|[Hx _]]; [assumption|].
    destruct l1; [|discriminate]. simpl in Hx. contradiction.
Qed.

(* ================================================================== *)
(** * Runs of the whole script *)
(* ================================================================== *)

Arguments scan_config : simpl never.
Arguments parse_requests : simpl never.
Arguments pending_entries : simpl never.
Arguments pending_ips : simpl never.

Lemma print_all_run (l : list pystr) (w : World) :
  print_all l w = (Ret tt, log_events (map (fun s => Print (PyStr s)) l) w).
Proof.
  revert w. induction l as [|s l IH]; intro w; simpl.
  - unfold ret, log_events. rewrite app_nil_r. now destruct w.
  - unfold bind, print. rewrite IH. unfold log_events, log_event. simpl.
    now rewrite <- app_assoc.
Qed.

Lemma check_config_exists_run (w : World) (content : pystr) :
  files w configFilePath = Some content ->
  check_config_exists w = (Ret tt, log_event (Print (PyStr "Found config file.")) w).
Proof.
  intro Hf. unfold check_config_exists, bind, os_path_isfile, print.
  now rewrite Hf.
Qed.

Lemma backup_config_run (w : World) (content : pystr) :
  files w configFilePath = Some content ->
  backup_dir w = true ->
  backup_config (log_event (Print (PyStr "Found config file.")) w) =
  (Ret tt, backed_up content w).
Proof.
  intros Hf Hb.
  unfold backup_config, bind, os_path_isfile, time_time, shutil_copy, print.
  cbn. rewrite Hf, Hb. cbn. now rewrite pystr_eqb_refl.
Qed.

Lemma parse_config_run (w : World) (content : pystr) :
  files w configFilePath = Some content ->
  safety (scan_config (readlines content)) = 2 ->
  parse_config (backed_up content w) =
  (Ret (scan_config (readlines content), readlines content), config_parsed content w).
Proof.
  intros Hf Hs.
  unfold parse_config, bind, print, read_file. cbn.
  rewrite Hf, print_all_run, Hs. reflexivity.
Qed.

Lemma parse_config_malformed (w : World) (content : pystr) :
  files w configFilePath = Some content ->
  safety (scan_config (readlines content)) <> 2 ->
  parse_config (backed_up content w) =
  (SysExit,
   log_event (Print (PyStr "Error parsing config file. Should have exactly one begin and end script section."))
     (config_parsed content w)).
Proof.
  intros Hf Hs.
  unfold parse_config, bind, print, read_file, sys_exit. cbn.
  rewrite Hf, print_all_run. apply Nat.eqb_neq in Hs. rewrite Hs. reflexivity.
Qed.

Lemma parse_access_log_run (w : World) (content : pystr) (authorized : list pystr) :
  let requests := split_newline (shell w recentRequestCommand) in
  parse_access_log authorized (config_parsed content w) =
  match pending_ips authorized requests with
  | [] => (SysExit,
           log_event (Print (PyStr "Could not find any new requests"))
             (log_fetched content w))
  | _ :: _ => (Ret (pending_entries authorized requests,
                    pending_ips authorized requests),
               log_fetched content w)
  end.
Proof.
  unfold parse_access_log, bind, print, popen_read, sys_exit. cbn.
  destruct (pending_ips authorized _); reflexivity.
Qed.

Lemma prompt_operator_run (w : World) (content : pystr) (requestingIps : list pystr)
      (answer : pystr) (rest : list pystr) :
  stdin w = answer :: rest ->
  prompt_operator requestingIps (log_fetched content w) =
  if pystr_eqb answer "y" || pystr_eqb answer "Y" then
    (Ret tt, answered content requestingIps rest w)
  else
    (SysExit, log_event (Print (PyStr "Exiting")) (answered content requestingIps rest w)).
Proof.
  intro Hin.
  unfold prompt_operator, bind, print, print_val, raw_input, sys_exit. cbn.
  rewrite Hin. destruct (pystr_eqb answer "y" || pystr_eqb answer "Y"); reflexivity.
Qed.

(** Nothing before the write step touches the config file. *)
Lemma answered_config (w : World) (content : pystr) (ips rest : list pystr) :
  files (answered content ips rest w) configFilePath = files w configFilePath.
Proof. reflexivity. Qed.

Lemma log_fetched_config (w : World) (content : pystr) :
  files (log_fetched content w) configFilePath = files w configFilePath.
Proof. reflexivity. Qed.

(** The script up to the operator's answer, when every step before has
    gone well. *)
Lemma main_until_log (w : World) (content : pystr) :
  files w configFilePath = Some content ->
  backup_dir w = true ->
  safety (scan_config (readlines content)) = 2 ->
  main w =
  (requested <- parse_access_log (authorizedIps (scan_config (readlines content))) ;;
   prompt_operator (snd requested) ;;
   write_config (readlines content) (fst requested)) (config_parsed content w).
Proof.
  intros Hf Hb Hs. unfold main. unfold bind at 1.
  rewrite (check_config_exists_run w Hf). unfold bind at 1.
  rewrite (backup_config_run w Hf Hb). unfold bind at 1.
  rewrite (parse_config_run w Hf Hs). reflexivity.
Qed.

(** C9: when no pending request is left after the filter, the script
    prints its message and exits: the operator is not asked, the standard
    input is not read, and the config file is as it was. *)
Theorem no_pending_no_prompt (w : World) (content : pystr) :
  files w configFilePath = Some content ->
  backup_dir w = true ->
  safety (scan_config (readlines content)) = 2 ->
  pending_entries (authorizedIps (scan_config (readlines content)))
                  (split_newline (shell w recentRequestCommand)) = [] ->
  exists w' out,
    main w = (SysExit, w') /\
    files w' configFilePath = Some content /\
    stdin w' = stdin w /\
    trace w' = trace w ++ out ++ [Print (PyStr "Could not find any new requests")] /\
    (forall prompt, ~ In (RawInput prompt) out) /\
    ~ In (Popen "service apache2 restart") out.
Proof.
  intros Hf Hb Hs Hp.
  rewrite (main_until_log w Hf Hb Hs). unfold bind at 1.
  rewrite parse_access_log_run, pending_ips_entries, Hp. simpl map.
  eexists.
  exists ([Print (PyStr "Found config file."); Print (PyStr "Created config backup.");
           Print (PyStr "Parsing config file")] ++
          map (fun s => Print (PyStr s)) (scan_out (scan_config (readlines content))) ++
          [Print (PyStr "Parsing access log."); Popen recentRequestCommand]).
  split; [reflexivity|]. split; [exact Hf|]. split; [reflexivity|].
  split; [|split].
  - cbn. rewrite <- !app_assoc. reflexivity.
  - intros prompt Hin. rewrite !in_app_iff, in_map_iff in Hin. simpl in Hin.
    destruct Hin as [H|[(s0 & H & _)|H]]; [intuition discriminate | discriminate |
                                           intuition discriminate].
  - intro Hin. rewrite !in_app_iff, in_map_iff in Hin. simpl in Hin.
    destruct Hin as [H|[(s0 & H & _)|H]]; [intuition discriminate | discriminate |
                                           intuition discriminate].
Qed.

(** C8: once the script asks, the answers y and Y, and no other, take it
    to the write step; on any other answer it prints its message and
    exits, the config file as it was. *)
Theorem operator_confirmation (w : World) (content answer : pystr) (rest : list pystr) :
  files w configFilePath = Some content ->
  backup_dir w = true ->
  safety (scan_config (readlines content)) = 2 ->
  pending_entries (authorizedIps (scan_config (readlines content)))
                  (split_newline (shell w recentRequestCommand)) <> [] ->
  stdin w = answer :: rest ->
  let authorized := authorizedIps (scan_config (readlines content)) in
  let requests := split_newline (shell w recentRequestCommand) in
  let asked := answered content (pending_ips authorized requests) rest w in
  files asked configFilePath = Some content /\
  (answer = "y" \/ answer = "Y" ->
   main w = write_config (readlines content) (pending_entries authorized requests) asked) /\
  (~ (answer = "y" \/ answer = "Y") ->
   main w = (SysExit, log_event (Print (PyStr "Exiting")) asked) /\
   files (log_event (Print (PyStr "Exiting")) asked) configFilePath = Some content).
Proof.
  intros Hf Hb Hs Hp Hin authorized requests asked.
  assert (Hmain : main w =
                  (prompt_operator (pending_ips authorized requests) ;;
                   write_config (readlines content)
                                (pending_entries authorized requests))
                    (log_fetched content w)).
  { rewrite (main_until_log w Hf Hb Hs). unfold bind at 1.
    rewrite parse_access_log_run. fold authorized requests.
    destruct (pending_ips authorized requests) eqn:Hips; [|reflexivity].
    exfalso. apply Hp. fold authorized requests.
    rewrite pending_ips_entries in Hips. now apply map_eq_nil in Hips. }
  split; [exact Hf|]. split.
  - intro Hyes. rewrite Hmain. unfold bind at 1.
    rewrite (prompt_operator_run w content _ Hin).
    assert (E : pystr_eqb answer "y" || pystr_eqb answer "Y" = true).
    { apply orb_true_iff. rewrite !pystr_eqb_eq. exact Hyes. }
    now rewrite E.
  - intro Hno. rewrite Hmain. unfold bind at 1.
    rewrite (prompt_operator_run w content _ Hin).
    assert (E : pystr_eqb answer "y" || pystr_eqb answer "Y" = false).
    { apply orb_false_iff. rewrite !pystr_eqb_neq. tauto. }
    rewrite E. split; [reflexivity | exact Hf].
Qed.

(* ================================================================== *)
(** * The write step *)
(* ================================================================== *)

Lemma find_insertIndex_found (fuel : nat) (configLines : list pystr) (i j : nat)
      (line : pystr) :
  i <= j ->
  nth_error configLines j = Some line ->
  is_end line = true ->
  (forall k l, i <= k < j -> nth_error configLines k = Some l -> is_end l = false) ->
  j - i < fuel ->
  find_insertIndex fuel configLines i = Ret j.
Proof.
  unfold is_end. revert i.
  induction fuel as [|fuel IH]; intros i Hij Hj Hm Hbefore Hfuel; [lia|].
  simpl. destruct (Nat.eq_dec i j) as [->|Hne].
  - now rewrite Hj, Hm.
  - assert (Hlt : i < length configLines).
    { apply Nat.lt_le_trans with (m := S j); [lia|].
      apply Nat.le_succ_l. apply nth_error_Some. congruence. }
    apply nth_error_Some in Hlt.
    destruct (nth_error configLines i) as [l|] eqn:Hi; [|congruence].
    rewrite (Hbefore i l) by (auto; lia).
    apply IH; auto; try lia.
    intros k l' Hk. apply Hbefore. lia.
Qed.

Lemma build_newContent_run (es : list IpRequest) (newContent : pystr) (w : World) :
  build_newContent es newContent w =
  (Ret (newContent ++ new_content (ctimes w) (ticks w) es), ticked (length es) w).
Proof.
  revert newContent w. induction es as [|item es IH]; intros newContent w.
  - simpl. unfold ret, ticked. rewrite app_nil_r. now destruct w.
  - change (build_newContent (item :: es) newContent w)
      with (build_newContent es
              (newContent ++ [newline] ++ comment_line (ctimes w (ticks w)) item ++
               allow_line item)
              (ticked 1 w)).
    rewrite IH. unfold ticked. cbn [length new_content ctimes ticks files backup_dir
                                     shell stdin epoch trace].
    rewrite Nat.add_succ_r, <- !app_assoc. reflexivity.
Qed.

Lemma new_content_join (clock : nat -> pystr) (t : nat) (es : list IpRequest) :
  new_content clock t es = join (block_lines clock t es).
Proof.
  unfold join. revert t. induction es as [|item es IH]; intro t; [reflexivity|].
  cbn [new_content block_lines concat]. rewrite IH, <- !app_assoc. reflexivity.
Qed.

Lemma no_newline_forallb (s : pystr) :
  forallb (fun c => negb (Ascii.eqb c newline)) s = true -> no_newline s.
Proof.
  induction s as [|c s IH]; simpl; intro H; [easy|].
  apply andb_true_iff in H. destruct H as [Hc Hs].
  apply no_newline_cons. split; [now apply negb_true_iff | auto].
Qed.

Lemma block_lines_are_lines (clock : nat -> pystr) (t : nat) (es : list IpRequest) :
  (forall n, no_newline (clock n)) ->
  (forall item, In item es -> no_newline (ip item) /\ no_newline (userAgent item)) ->
  Forall is_line (block_lines clock t es).
Proof.
  intros Hclock. revert t. induction es as [|item es IH]; intros t Hes; simpl.
  - constructor.
  - destruct (Hes item (or_introl eq_refl)) as [Hip Hua].
    constructor; [|constructor; [|constructor]].
    + exists []. split; [reflexivity | easy].
    + exists ("# allowing ip '" ++ ip item ++ "' on " ++ clock t ++
              ", request via " ++ userAgent item).
      split; [unfold comment_line; now rewrite <- !app_assoc|].
      rewrite !no_newline_app. repeat split; auto; now apply no_newline_forallb.
    + exists ("Allow from " ++ ip item).
      split; [unfold allow_line; now rewrite <- !app_assoc|].
      rewrite no_newline_app. split; [now apply no_newline_forallb | assumption].
    + apply IH. intros i Hi. apply Hes. now right.
Qed.

Lemma write_config_run (w : World) (old : pystr) (configLines : list pystr)
      (es : list IpRequest) (i : nat) :
  files w configFilePath = Some old ->
  find_insertIndex (S (length configLines)) configLines 1 = Ret i ->
  let data := join (list_insert i (new_content (ctimes w) (ticks w) es) configLines) in
  write_config configLines es w =
  (Ret tt, written_world (data ++ skipn (length data) old) (length es) w).
Proof.
  intros Hf Hi data. unfold write_config.
  unfold bind at 1. unfold print at 1. cbv beta iota.
  unfold bind at 1. unfold read_file at 1. cbn [files log_event]. rewrite Hf.
  unfold bind at 1. rewrite Hi.
  unfold bind at 1. rewrite build_newContent_run. cbn [app ctimes ticks log_event].
  fold data.
  unfold bind at 1. unfold overwrite_file at 1. cbn [files ticked log_event].
  rewrite Hf. cbv beta iota.
  reflexivity.
Qed.

(** A write step that finds no insertion point raises [IndexError] and
    leaves the file alone. *)
Lemma write_config_overrun (w : World) (old : pystr) (configLines : list pystr)
      (es : list IpRequest) :
  files w configFilePath = Some old ->
  find_insertIndex (S (length configLines)) configLines 1 = Raise IndexError ->
  write_config configLines es w =
  (Raise IndexError,
   log_event (Print (PyStr "Adding ip address to apache config...")) w).
Proof.
  intros Hf Hi. unfold write_config.
  unfold bind at 1. unfold print at 1. cbv beta iota.
  unfold bind at 1. unfold read_file at 1. cbn [files log_event]. rewrite Hf.
  unfold bind at 1. rewrite Hi. reflexivity.
Qed.

Lemma firstn_length_app {A} (l1 l2 : list A) : firstn (length l1) (l1 ++ l2) = l1.
Proof. induction l1 as [|x l1 IH]; simpl; [now destruct l2 | now rewrite IH]. Qed.

Lemma skipn_length_app {A} (l1 l2 : list A) : skipn (length l1) (l1 ++ l2) = l2.
Proof. induction l1 as [|x l1 IH]; simpl; [reflexivity | exact IH]. Qed.

Lemma list_insert_app {A} (l1 l2 : list A) (x : A) :
  list_insert (length l1) x (l1 ++ l2) = l1 ++ x :: l2.
Proof. unfold list_insert. now rewrite firstn_length_app, skipn_length_app. Qed.

Lemma join_app (l1 l2 : list pystr) : join (l1 ++ l2) = join l1 ++ join l2.
Proof. apply concat_app. Qed.

(** In a valid managed region the search stops on the end-marker line. *)
Lemma find_insertIndex_region cl before b inside e after :
  managed_region cl before b inside e after ->
  find_insertIndex (S (length cl)) cl 1 = Ret (length (before ++ b :: inside)).
Proof.
  intros [-> Hb Hb' He He' H1 H2 H3].
  replace (before ++ b :: inside ++ e :: after)
    with ((before ++ b :: inside) ++ e :: after)
    by (now rewrite <- app_assoc).
  set (head := before ++ b :: inside).
  assert (Hhead : Forall (fun l => is_end l = false) head).
  { apply Forall_app. split.
    - eapply Forall_impl; [|exact H1]. now intros l [_ Hl].
    - constructor; [assumption|].
      eapply Forall_impl; [|exact H2]. now intros l [_ Hl]. }
  apply find_insertIndex_found with (line := e).
  - subst head. rewrite length_app. simpl. lia.
  - rewrite nth_error_app2 by lia. now rewrite Nat.sub_diag.
  - assumption.
  - intros k l Hk Hl. rewrite nth_error_app1 in Hl by lia.
    apply nth_error_In in Hl. rewrite Forall_forall in Hhead. auto.
  - rewrite length_app. lia.
Qed.

(** C2, as the code has it: for a config file with a valid managed
    region the write step puts, for each pending request, three lines
    (an empty line, the comment with the address, the time and the user
    agent, and the Allow-from directive) right before the end-marker
    line, the blocks one after another in the order of the requests, and
    keeps every line of the file, in order. *)
Theorem blocks_before_end_marker (w : World) (content : pystr)
        before b inside e after (es : list IpRequest) :
  managed_region (readlines content) before b inside e after ->
  files w configFilePath = Some content ->
  (forall n, no_newline (ctimes w n)) ->
  (forall item, In item es -> no_newline (ip item) /\ no_newline (userAgent item)) ->
  exists written,
    write_config (readlines content) es w =
      (Ret tt, written_world written (length es) w) /\
    written =
      join (before ++ b :: inside ++ new_content (ctimes w) (ticks w) es :: e :: after) /\
    readlines written =
      before ++ b :: inside ++ block_lines (ctimes w) (ticks w) es ++ e :: after.
Proof.
  intros Hreg Hf Hclock Hes.
  pose proof (find_insertIndex_region Hreg) as Hfind.
  pose proof (write_config_run w (readlines content) es Hf Hfind) as Hrun.
  cbv zeta in Hrun.
  destruct Hreg as [Hsplit _ _ _ _ _ _ _].
  assert (Hsplit' : readlines content = (before ++ b :: inside) ++ e :: after)
    by (now rewrite <- app_assoc).
  set (head := before ++ b :: inside) in *.
  set (nc := new_content (ctimes w) (ticks w) es) in *.
  rewrite Hsplit', list_insert_app in Hrun.
  destruct (@readlines_split content head (e :: after) Hsplit') as [Hhead Htail];
    [discriminate|].
  assert (Hlen : length content <= length (join (head ++ nc :: e :: after))).
  { rewrite <- (join_readlines content), Hsplit'.
    rewrite !join_app, !length_app. unfold join. simpl. rewrite !length_app. lia. }
  rewrite (skipn_all2 _ Hlen), app_nil_r in Hrun.
  exists (join (head ++ nc :: e :: after)).
  split; [now rewrite Hsplit'|]. split.
  - subst head. now rewrite <- app_assoc.
  - rewrite join_app. change (nc :: e :: after) with ([nc] ++ e :: after).
    rewrite join_app. unfold join at 2. simpl concat. rewrite app_nil_r.
    subst nc. rewrite new_content_join.
    rewrite readlines_lines by assumption.
    rewrite readlines_lines by (now apply block_lines_are_lines).
    rewrite Htail. subst head. now rewrite <- app_assoc.
Qed.

(* ================================================================== *)
(** * What the matcher accepts *)
(* ================================================================== *)

Lemma in_range_succ (lo : nat) (hi : option nat) (n : nat) :
  room hi = true -> in_range (pred lo) (option_map pred hi) n ->
  in_range lo hi (S n).
Proof.
  unfold in_range. intros Hroom [Hlo Hhi]. split; [lia|].
  destruct hi as [[|h]|]; simpl in *; [discriminate | lia | exact I].
Qed.

Lemma in_range_pred (lo : nat) (hi : option nat) (n : nat) :
  in_range lo hi (S n) ->
  room hi = true /\ in_range (pred lo) (option_map pred hi) n.
Proof.
  unfold in_range. intros [Hlo Hhi].
  destruct hi as [[|h]|]; simpl in *; repeat split; try lia; auto.
Qed.

Section MatcherFacts.
Variable R : Type.

Lemma rep_stop_some (lo : nat) (s : pystr) (k : pystr -> option R) (res : R) :
  rep_stop lo s k = Some res -> lo = 0 /\ k s = Some res.
Proof. destruct lo; simpl; [auto | discriminate]. Qed.

Lemma rep_greedy_sound (p : ascii -> bool) (s : pystr) :
  forall lo hi (k : pystr -> option R) res,
    rep_greedy p lo hi s k = Some res ->
    exists s1 s2, s = s1 ++ s2 /\ Forall (fun c => p c = true) s1 /\
                  in_range lo hi (length s1) /\ k s2 = Some res.
Proof.
  assert (Hstop : forall lo hi (s0 : pystr) (k : pystr -> option R) res,
             rep_stop lo s0 k = Some res ->
             exists s1 s2, s0 = s1 ++ s2 /\ Forall (fun c => p c = true) s1 /\
                           in_range lo hi (length s1) /\ k s2 = Some res).
  { intros lo hi s0 k res H. apply rep_stop_some in H. destruct H as [-> H].
    exists [], s0. repeat split; auto. simpl. destruct hi; [lia | exact I]. }
  induction s as [|c s IH]; intros lo hi k res H; simpl in H.
  - now apply Hstop.
  - destruct (p c && room hi) eqn:Hc; [|now apply Hstop].
    apply andb_true_iff in Hc. destruct Hc as [Hc Hroom].
    destruct (rep_greedy p (pred lo) (option_map pred hi) s k) as [res'|] eqn:Hrec;
      [|now apply Hstop].
    injection H as <-.
    destruct (IH _ _ _ _ Hrec) as (s1 & s2 & -> & Hall & Hrange & Hk).
    exists (c :: s1), s2.
    split; [reflexivity|]. split; [now constructor|].
    split; [now apply in_range_succ | assumption].
Qed.

Lemma rep_lazy_sound (p : ascii -> bool) (s : pystr) :
  forall lo hi (k : pystr -> option R) res,
    rep_lazy p lo hi s k = Some res ->
    exists s1 s2, s = s1 ++ s2 /\ Forall (fun c => p c = true) s1 /\
                  in_range lo hi (length s1) /\ k s2 = Some res.
Proof.
  assert (Hstop : forall lo hi (s0 : pystr) (k : pystr -> option R) res,
             rep_stop lo s0 k = Some res ->
             exists s1 s2, s0 = s1 ++ s2 /\ Forall (fun c => p c = true) s1 /\
                           in_range lo hi (length s1) /\ k s2 = Some res).
  { intros lo hi s0 k res H. apply rep_stop_some in H. destruct H as [-> H].
    exists [], s0. repeat split; auto. simpl. destruct hi; [lia | exact I]. }
  induction s as [|c s IH]; intros lo hi k res H; simpl in H.
  - destruct (rep_stop lo [] k) eqn:Hs; [|discriminate].
    injection H as <-. now apply Hstop.
  - destruct (rep_stop lo (c :: s) k) eqn:Hs.
    + injection H as <-. now apply Hstop.
    + destruct (p c && room hi) eqn:Hc; [|discriminate].
      apply andb_true_iff in Hc. destruct Hc as [Hc Hroom].
      destruct (IH _ _ _ _ H) as (s1 & s2 & -> & Hall & Hrange & Hk).
      exists (c :: s1), s2.
      split; [reflexivity|]. split; [now constructor|].
      split; [now apply in_range_succ | assumption].
Qed.

Lemma firstn_consumed (s1 s2 : pystr) :
  firstn (length (s1 ++ s2) - length s2) (s1 ++ s2) = s1.
Proof.
  rewrite length_app, Nat.add_sub. apply firstn_length_app.
Qed.

Lemma infix_app_r (v s t : pystr) : infix v s -> infix v (s ++ t).
Proof.
  intros (a & b & ->). exists a, (b ++ t). now rewrite <- !app_assoc.
Qed.

Lemma infix_app_l (v s t : pystr) : infix v s -> infix v (t ++ s).
Proof.
  intros (a & b & ->). exists (t ++ a), b. now rewrite <- !app_assoc.
Qed.

Lemma infix_refl (s : pystr) : infix s s.
Proof. exists [], []. now rewrite app_nil_r. Qed.

(** Soundness of the matcher: what it consumes is a string of the
    pattern, and what it records are the pattern's groups, each with a
    piece of the consumed text. *)
Lemma re_match_sound (r : regex) :
  forall (s : pystr) (c : captures) (k : pystr -> captures -> option R) res,
    re_match r s c k = Some res ->
    exists s1 s2 new,
      s = s1 ++ s2 /\ matches r s1 /\ k s2 (new ++ c) = Some res /\
      Forall (fun nv => infix (snd nv) s1) new /\ map fst new = closing r.
Proof.
  induction r as [|p|r1 IH1 r2 IH2|g lo hi p|n r1 IH1]; intros s c k res H; simpl in H.
  - exists [], s, []. repeat split; auto. constructor.
  - destruct s as [|a s]; [discriminate|].
    destruct (p a) eqn:Hp; [|discriminate].
    exists [a], s, []. repeat split; auto. now constructor.
  - destruct (IH1 _ _ _ _ H) as (s1 & s2 & new1 & -> & Hm1 & Hk1 & Hin1 & Hc1).
    destruct (IH2 _ _ _ _ Hk1) as (s3 & s4 & new2 & -> & Hm2 & Hk2 & Hin2 & Hc2).
    exists (s1 ++ s3), s4, (new2 ++ new1). rewrite <- !app_assoc.
    repeat split; auto.
    + now constructor.
    + apply Forall_app. split.
      * eapply Forall_impl; [|exact Hin2]. intros nv. apply infix_app_l.
      * eapply Forall_impl; [|exact Hin1]. intros nv. apply infix_app_r.
    + simpl. now rewrite map_app, Hc1, Hc2.
  - assert (Hrep : exists s1 s2, s = s1 ++ s2 /\ Forall (fun c => p c = true) s1 /\
                                 in_range lo hi (length s1) /\ k s2 c = Some res).
    { destruct g; [apply rep_greedy_sound in H | apply rep_lazy_sound in H]; exact H. }
    destruct Hrep as (s1 & s2 & -> & Hall & Hrange & Hk).
    exists s1, s2, []. repeat split; auto. now constructor.
  - destruct (IH1 _ _ _ _ H) as (s1 & s2 & new & -> & Hm & Hk & Hin & Hc).
    rewrite firstn_consumed in Hk.
    exists s1, s2, ((n, s1) :: new). repeat split; auto.
    + now constructor.
    + constructor; [apply infix_refl | assumption].
    + simpl. now rewrite Hc.
Qed.

Lemma rep_greedy_complete (p : ascii -> bool) (s1 : pystr) :
  forall lo hi (s2 : pystr) (k : pystr -> option R),
    Forall (fun c => p c = true) s1 -> in_range lo hi (length s1) ->
    k s2 <> None ->
    rep_greedy p lo hi (s1 ++ s2) k <> None.
Proof.
  induction s1 as [|c s1 IH]; intros lo hi s2 k Hall Hrange Hk.
  - destruct Hrange as [Hlo _]. simpl in Hlo. assert (lo = 0) by lia. subst lo.
    simpl. destruct s2 as [|c s2]; simpl; [exact Hk|].
    destruct (p c && room hi); [|exact Hk].
    destruct (rep_greedy p 0 (option_map pred hi) s2 k); [discriminate | exact Hk].
  - inversion Hall as [|? ? Hc Hall']; subst.
    apply in_range_pred in Hrange. destruct Hrange as [Hroom Hrange].
    simpl. rewrite Hc, Hroom. simpl.
    specialize (IH _ _ s2 k Hall' Hrange Hk).
    destruct (rep_greedy p (pred lo) (option_map pred hi) (s1 ++ s2) k);
      [discriminate | contradiction].
Qed.

Lemma rep_lazy_complete (p : ascii -> bool) (s1 : pystr) :
  forall lo hi (s2 : pystr) (k : pystr -> option R),
    Forall (fun c => p c = true) s1 -> in_range lo hi (length s1) ->
    k s2 <> None ->
    rep_lazy p lo hi (s1 ++ s2) k <> None.
Proof.
  induction s1 as [|c s1 IH]; intros lo hi s2 k Hall Hrange Hk.
  - destruct Hrange as [Hlo _]. simpl in Hlo. assert (lo = 0) by lia. subst lo.
    simpl. destruct s2 as [|c s2]; simpl.
    + destruct (k []); [discriminate | contradiction].
    + destruct (k (c :: s2)); [discriminate | contradiction].
  - inversion Hall as [|? ? Hc Hall']; subst.
    apply in_range_pred in Hrange. destruct Hrange as [Hroom Hrange].
    simpl. destruct (rep_stop lo (c :: s1 ++ s2) k); [discriminate|].
    rewrite Hc, Hroom. simpl. now apply IH.
Qed.

(** Completeness of the matcher: where a string of the pattern stands
    and the rest of the pattern can go on, the matcher finds a match. *)
Lemma re_match_complete (r : regex) (s1 : pystr) :
  matches r s1 ->
  forall (s2 : pystr) (c : captures) (k : pystr -> captures -> option R),
    (forall c', k s2 c' <> None) ->
    re_match r (s1 ++ s2) c k <> None.
Proof.
  induction 1 as [|p a Hp|r1 r2 s1 s3 _ IH1 _ IH2|g lo hi p s Hall Hrange|n r s _ IH];
    intros s2 c k Hk; simpl.
  - apply Hk.
  - rewrite Hp. apply Hk.
  - rewrite <- app_assoc. apply IH1. intro c'. now apply IH2.
  - destruct g; [apply rep_greedy_complete | apply rep_lazy_complete]; auto.
  - apply IH. intro c'. apply Hk.
Qed.
End MatcherFacts.

Lemma search_from_sound (r : regex) (s : pystr) (c : captures) :
  search_from r s = Some c ->
  exists pre body post,
    s = pre ++ body ++ post /\ matches r body /\
    Forall (fun nv => infix (snd nv) body) c /\ map fst c = closing r.
Proof.
  induction s as [|a s IH]; simpl.
  - destruct (re_match r [] [] (fun _ c0 => Some c0)) as [c0|] eqn:Hm; [|discriminate].
    intro H. injection H as ->.
    apply re_match_sound in Hm.
    destruct Hm as (s1 & s2 & new & Hs & Hm & Hk & Hin & Hc).
    rewrite app_nil_r in Hk. injection Hk as <-.
    exists [], s1, s2. auto.
  - destruct (re_match r (a :: s) [] (fun _ c0 => Some c0)) as [c0|] eqn:Hm.
    + intro H. injection H as ->.
      apply re_match_sound in Hm.
      destruct Hm as (s1 & s2 & new & Hs & Hm & Hk & Hin & Hc).
      rewrite app_nil_r in Hk. injection Hk as <-.
      exists [], s1, s2. auto.
    + intro H. destruct (IH H) as (pre & body & post & -> & Hrest).
      exists (a :: pre), body, post. auto.
Qed.

Lemma search_from_complete (r : regex) (pre body post : pystr) :
  matches r body -> search_from r (pre ++ body ++ post) <> None.
Proof.
  intro Hm.
  assert (Hhere : forall s, s = body ++ post -> search_from r s <> None).
  { intros s ->.
    pose proof (@re_match_complete captures r body Hm post []
                  (fun _ c0 => Some c0)) as H.
    assert (H' : re_match r (body ++ post) [] (fun _ c0 => Some c0) <> None)
      by (apply H; discriminate).
    destruct (body ++ post); simpl;
      destruct (re_match r _ [] (fun _ c0 => Some c0)); congruence. }
  induction pre as [|a pre IH]; simpl.
  - now apply Hhere.
  - destruct (re_match r (a :: pre ++ body ++ post) [] (fun _ c0 => Some c0));
      [discriminate | exact IH].
Qed.

(** [re.search] finds a match exactly on the conforming lines. *)
Lemma format_occurs_iff_search (line : pystr) :
  format_occurs_in line <-> re_search accessLogRegex line <> None.
Proof.
  unfold re_search. split.
  - intros (pre & body & post & -> & Hm).
    pose proof (@search_from_complete accessLogRegex pre body post Hm) as H.
    destruct (search_from accessLogRegex (pre ++ body ++ post)); congruence.
  - intro H. destruct (search_from accessLogRegex line) as [c|] eqn:Hs; [|congruence].
    apply search_from_sound in Hs.
    destruct Hs as (pre & body & post & Hl & Hm & _).
    now exists pre, body, post.
Qed.

(** C4, as the code has it: the example line gives one entry, with
    address 1.2.3.4 and user agent TestAgent/1.0.  The search is not
    anchored: a line gives no entry and changes nothing when the
    access-log format stands nowhere in it; when the format stands
    somewhere in it, text before and behind being passed over, the
    search matches and the line gives the entry of that match unless its
    address has been seen.  A line that is in the format from its first
    character to its last is such a line. *)
Theorem log_line_parse :
  (exists e, parse_requests [example_log_line] = ([e], [ip e]) /\
             ip e = "1.2.3.4" /\ userAgent e = "TestAgent/1.0") /\
  (forall line st, ~ format_occurs_in line -> log_step st line = st) /\
  (forall line requests,
      ~ format_occurs_in line ->
      parse_requests (requests ++ [line]) = parse_requests requests) /\
  (forall line st,
      format_occurs_in line ->
      exists acc,
        re_search accessLogRegex line = Some acc /\
        log_step st line =
          if py_in (group acc 1) (snd st) then st
          else (fst st ++ [entry_of acc], snd st ++ [group acc 1])) /\
  (forall line, in_log_format line -> format_occurs_in line).
Proof.
  assert (Hskip : forall line st, ~ format_occurs_in line -> log_step st line = st).
  { intros line st Hno. rewrite format_occurs_iff_search in Hno.
    unfold log_step. destruct st as [es ips].
    destruct (re_search accessLogRegex line); [|reflexivity].
    exfalso. apply Hno. discriminate. }
  split; [|split; [|split; [|split]]].
  - exists {| ip := "1.2.3.4"; identd := []; remoteUser := [];
              date := "10/Jul/2015"; time := "10:00:00"; timezone := "+0000";
              request := []; status := []; size := 0;
              userAgent := "TestAgent/1.0" |}.
    split; [vm_compute; reflexivity|]. split; reflexivity.
  - exact Hskip.
  - intros line requests Hno. rewrite parse_requests_snoc. now apply Hskip.
  - intros line st Hocc. rewrite format_occurs_iff_search in Hocc.
    rewrite log_step_eq. unfold log_step_unguarded.
    destruct (re_search accessLogRegex line) as [acc|]; [|congruence].
    exists acc. split; [reflexivity|].
    destruct (py_in (group acc 1) (snd st)); reflexivity.
  - intros line Hline. exists [], line, []. rewrite app_nil_r. now split.
Qed.

(* ================================================================== *)
(** * The fields of an entry *)
(* ================================================================== *)

Lemma split_newline_no_newline (s l : pystr) :
  In l (split_newline s) -> no_newline l.
Proof.
  revert l. induction s as [|c s IH]; intros l H; simpl in H.
  - destruct H as [<-|[]]. easy.
  - destruct (Ascii.eqb c newline) eqn:Hc.
    + destruct H as [<-|H]; [easy | auto].
    + destruct (split_newline s) as [|x xs] eqn:Hs.
      * destruct H as [<-|[]]. apply no_newline_cons. split; [assumption | easy].
      * destruct H as [<-|H].
        -- apply no_newline_cons. split; [assumption|]. apply IH. now left.
        -- apply IH. now right.
Qed.

Lemma infix_no_newline (v s : pystr) : infix v s -> no_newline s -> no_newline v.
Proof.
  intros (a & b & ->) H. apply no_newline_app in H. destruct H as [_ H].
  apply no_newline_app in H. tauto.
Qed.

Lemma lookup_group_In (n : nat) (c : captures) (v : pystr) :
  lookup_group n c = Some v -> In (n, v) c.
Proof.
  induction c as [|[m x] c IH]; simpl; [discriminate|].
  destruct (m =? n) eqn:Hm.
  - intro H. injection H as ->. apply Nat.eqb_eq in Hm. subst. now left.
  - intro H. right. auto.
Qed.

Lemma lookup_group_closing (n : nat) (c : captures) :
  In n (map fst c) -> exists v, lookup_group n c = Some v.
Proof.
  induction c as [|[m x] c IH]; simpl; [easy|].
  intros [->|H].
  - rewrite Nat.eqb_refl. eauto.
  - destruct (m =? n); eauto.
Qed.

(** What a successful search records are pieces of the line. *)
Lemma re_search_groups (r : regex) (line : pystr) (m : MatchObject) :
  re_search r line = Some m ->
  map fst (m_captures m) = closing r /\
  forall n v, lookup_group n (m_captures m) = Some v -> infix v line.
Proof.
  unfold re_search. destruct (search_from r line) as [c|] eqn:Hs; [|discriminate].
  intro H. injection H as <-. simpl.
  apply search_from_sound in Hs.
  destruct Hs as (pre & body & post & -> & _ & Hin & Hc).
  split; [assumption|]. intros n v Hv. apply lookup_group_In in Hv.
  rewrite Forall_forall in Hin. specialize (Hin _ Hv). simpl in Hin.
  apply infix_app_l. now apply infix_app_r.
Qed.

(** On a match of the access-log pattern every group from 1 to 13 has
    its text, so [group] never falls back on its default. *)
Lemma accessLog_groups_present (line : pystr) (acc : MatchObject) (n : nat) :
  re_search accessLogRegex line = Some acc -> 1 <= n <= 13 ->
  exists v, lookup_group n (m_captures acc) = Some v.
Proof.
  intros H Hn. apply re_search_groups in H. destruct H as [Hc _].
  apply lookup_group_closing. rewrite Hc.
  assert (Hcases : n = 1 \/ n = 2 \/ n = 3 \/ n = 4 \/ n = 5 \/ n = 6 \/ n = 7 \/
                   n = 8 \/ n = 9 \/ n = 10 \/ n = 11 \/ n = 12 \/ n = 13) by lia.
  vm_compute. intuition auto.
Qed.

Lemma group_no_newline (r : regex) (line : pystr) (m : MatchObject) (n : nat) :
  re_search r line = Some m -> no_newline line -> no_newline (group m n).
Proof.
  intros H Hline. unfold group.
  destruct (lookup_group n (m_captures m)) as [v|] eqn:Hv; [|easy].
  apply re_search_groups in H. destruct H as [_ H].
  eapply infix_no_newline; eauto.
Qed.

(** The address and the user agent of a pending request hold no
    newline: each log line is a piece between two newlines. *)
Lemma pending_entries_no_newline (authorized : list pystr) (log : pystr)
      (item : IpRequest) :
  In item (pending_entries authorized (split_newline log)) ->
  no_newline (ip item) /\ no_newline (userAgent item).
Proof.
  intro H. unfold pending_entries, drop_authorized_entries in H.
  apply filter_In in H. destruct H as [H _].
  destruct (inv_first (parse_requests_inv (split_newline log)) item H)
    as (l1 & line & l2 & acc & Hl & Hacc & -> & _).
  assert (Hline : no_newline line).
  { apply (@split_newline_no_newline log). rewrite Hl. apply in_or_app.
    right. now left. }
  split; simpl; eapply group_no_newline; eauto.
Qed.

(* ================================================================== *)
(** * Concrete runs *)
(* ================================================================== *)

Lemma example_region :
  managed_region (readlines example_config)
    ["<Directory /var/www/>" ++ [newline]] begin_line
    ["Allow from 10.0.0.5" ++ [newline]; "# comment" ++ [newline]]
    end_line ["</Directory>" ++ [newline]].
Proof.
  constructor; try (vm_compute; reflexivity);
    repeat constructor; vm_compute; reflexivity.
Qed.

(** A valid managed region passes the test of [safety]. *)
Lemma managed_region_safety cl before b inside e after :
  managed_region cl before b inside e after ->
  safety (scan_config cl) = 2.
Proof.
  intros [-> Hb Hb' He He' H1 H2 H3]. rewrite scan_config_safety.
  assert (Hnone : forall l, Forall no_marker l ->
                            count_lines (fun line => is_begin line || is_end line) l = 0).
  { intros l Hl. apply count_lines_none. eapply Forall_impl; [|exact Hl].
    intros x [Hx1 Hx2]. now rewrite Hx1, Hx2. }
  rewrite count_lines_app, Hnone by assumption.
  change (b :: inside ++ e :: after) with ([b] ++ inside ++ [e] ++ after).
  rewrite !count_lines_app, (Hnone inside), (Hnone after) by assumption.
  unfold count_lines. simpl. now rewrite Hb, He, He'.
Qed.

(** C1, where the code departs from it: a config file with two begin
    markers and no end marker has [safety = 2] and passes the test that
    is meant to demand one marker of each kind; the script goes on,
    asks the operator, and on the answer y runs off the end of the list
    in the write step. *)
Theorem two_begin_markers_pass_check :
  let w := example_world two_begin_config
             (request_from "9.9.9.9" "TestAgent/1.0" ++ [newline]) ["y"] in
  count_lines is_begin (readlines two_begin_config) = 2 /\
  count_lines is_end (readlines two_begin_config) = 0 /\
  safety (scan_config (readlines two_begin_config)) = 2 /\
  fst (main w) = Raise IndexError /\
  In (RawInput "Allow ips [y/n]? ") (trace (snd (main w))) /\
  files (snd (main w)) configFilePath = Some two_begin_config.
Proof.
  cbv zeta. repeat split; try (vm_compute; reflexivity).
  vm_compute. tauto.
Qed.

(** The guards on the example line. *)
Lemma group_count_guards_witness :
  exists acc, re_search accessLogRegex example_log_line = Some acc /\
              py_gt (groups acc) (PyInt 12) = true.
Proof.
  destruct (re_search accessLogRegex example_log_line) as [acc|] eqn:H.
  - exists acc. split; [reflexivity|].
    exact (proj1 (proj2 (group_count_guards_vacuous example_log_line)) acc H).
  - vm_compute in H. discriminate H.
Defined.

(** The authorized address 10.0.0.5 asks again, twice: nothing is
    pending. *)
Lemma authorized_never_pending_witness :
  let requests := [request_from "10.0.0.5" "A"; request_from "9.9.9.9" "B";
                   request_from "10.0.0.5" "C"] in
  ~ In "10.0.0.5" (map ip (pending_entries ["10.0.0.5"] requests)) /\
  ~ In "10.0.0.5" (pending_ips ["10.0.0.5"] requests).
Proof.
  exact (@authorized_never_pending
           [request_from "10.0.0.5" "A"; request_from "9.9.9.9" "B";
            request_from "10.0.0.5" "C"]
           ["10.0.0.5"] "10.0.0.5" (or_introl eq_refl)).
Defined.


(** Only the authorized address asks: the script exits unprompted. *)
Lemma no_pending_no_prompt_witness :
  exists w' out,
    main (example_world example_config
            (request_from "10.0.0.5" "TestAgent/1.0" ++ [newline]) ["y"]) =
      (SysExit, w') /\
    files w' configFilePath = Some example_config /\
    stdin w' = ["y"] /\
    trace w' = out ++ [Print (PyStr "Could not find any new requests")] /\
    (forall prompt, ~ In (RawInput prompt) out) /\
    ~ In (Popen "service apache2 restart") out.
Proof.
  refine (@no_pending_no_prompt
            (example_world example_config
               (request_from "10.0.0.5" "TestAgent/1.0" ++ [newline]) ["y"])
            example_config _ _ _ _); vm_compute; reflexivity.
Defined.

(** The operator answers n: the script exits, the config file as it
    was. *)
Lemma operator_confirmation_witness :
  let w := example_world example_config
             (request_from "9.9.9.9" "TestAgent/1.0" ++ [newline]) ["n"] in
  fst (main w) = SysExit /\
  files (snd (main w)) configFilePath = Some example_config.
Proof.
  cbv zeta.
  assert (Hno : ~ ("n" = "y" \/ "n" = "Y")) by (intros [H|H]; discriminate H).
  assert (Hpending :
            pending_entries
              (authorizedIps (scan_config (readlines example_config)))
              (split_newline
                 (shell (example_world example_config
                           (request_from "9.9.9.9" "TestAgent/1.0" ++ [newline])
                           ["n"])
                        recentRequestCommand)) <> [])
    by (vm_compute; discriminate).
  destruct (@operator_confirmation
              (example_world example_config
                 (request_from "9.9.9.9" "TestAgent/1.0" ++ [newline]) ["n"])
              example_config "n" [] eq_refl eq_refl
              (managed_region_safety example_region) Hpending eq_refl)
    as (_ & _ & Hdecline).
  destruct (Hdecline Hno) as [Hmain Hfile].
  rewrite Hmain. split; [reflexivity | exact Hfile].
Defined.

(* ================================================================== *)
(** * The write step against the specification's wording *)
(* ================================================================== *)

(** One pending request on the example config: the file the write step
    leaves is not the one of the specification's wording, for the code
    puts an empty line before each block. *)
Lemma two_line_blocks_refuted :
  let w := example_world example_config [] [] in
  managed_region (readlines example_config)
    ["<Directory /var/www/>" ++ [newline]] begin_line
    ["Allow from 10.0.0.5" ++ [newline]; "# comment" ++ [newline]]
    end_line ["</Directory>" ++ [newline]] /\
  find_insertIndex (S (length (readlines example_config)))
                   (readlines example_config) 1 = Ret 4 /\
  config_lines_after (write_config (readlines example_config) [example_entry] w) <>
  Some (AppendAuthorizations_spec (readlines example_config) 4
          (ctimes w) (ticks w) [example_entry]).
Proof.
  cbv zeta. split; [exact example_region|]. split; [vm_compute; reflexivity|].
  vm_compute. intro H. discriminate H.
Qed.

(** The same run, as the code has it. *)
Lemma blocks_before_end_marker_witness :
  let w := example_world example_config [] [] in
  exists written,
    write_config (readlines example_config) [example_entry] w =
      (Ret tt, written_world written 1 w) /\
    written =
      join (["<Directory /var/www/>" ++ [newline]] ++ begin_line ::
            ["Allow from 10.0.0.5" ++ [newline]; "# comment" ++ [newline]] ++
            new_content (ctimes w) (ticks w) [example_entry] ::
            end_line :: ["</Directory>" ++ [newline]]) /\
    readlines written =
      ["<Directory /var/www/>" ++ [newline]] ++ begin_line ::
      ["Allow from 10.0.0.5" ++ [newline]; "# comment" ++ [newline]] ++
      block_lines (ctimes w) (ticks w) [example_entry] ++
      end_line :: ["</Directory>" ++ [newline]].
Proof.
  cbv zeta.
  refine (@blocks_before_end_marker (example_world example_config [] [])
            example_config _ _ _ _ _ [example_entry] example_region eq_refl _ _).
  - intro n. apply no_newline_forallb. reflexivity.
  - intros item [<-|[]]. split; apply no_newline_forallb; reflexivity.
Defined.

(** A line that is no access-log line is skipped. *)
Lemma log_line_parse_witness :
  parse_requests [example_log_line; "GET /request_access"] =
  parse_requests [example_log_line].
Proof.
  refine (proj1 (proj2 (proj2 log_line_parse)) "GET /request_access"
            [example_log_line] _).
  rewrite format_occurs_iff_search. intro H. apply H. vm_compute. reflexivity.
Defined.


(* ================================================================== *)
(** * What the groups hold *)
(* ================================================================== *)

Section CaptureFacts.
Variable R : Type.

(** The matcher records, for every group of the pattern, a string of
    what the group encloses. *)
Lemma re_match_captures (r : regex) :
  forall (s : pystr) (c : captures) (k : pystr -> captures -> option R) res,
    re_match r s c k = Some res ->
    exists s1 s2 new,
      s = s1 ++ s2 /\ matches r s1 /\ k s2 (new ++ c) = Some res /\
      captured new (group_patterns r).
Proof.
  unfold captured.
  induction r as [|p|r1 IH1 r2 IH2|g lo hi p|n r1 IH1]; intros s c k res H; simpl in H.
  - exists [], s, []. split; [reflexivity|]. split; [constructor|].
    split; [assumption | constructor].
  - destruct s as [|a s]; [discriminate|].
    destruct (p a) eqn:Hp; [|discriminate].
    exists [a], s, []. split; [reflexivity|]. split; [now constructor|].
    split; [assumption | constructor].
  - destruct (IH1 _ _ _ _ H) as (s1 & s2 & new1 & -> & Hm1 & Hk1 & Hc1).
    destruct (IH2 _ _ _ _ Hk1) as (s3 & s4 & new2 & -> & Hm2 & Hk2 & Hc2).
    exists (s1 ++ s3), s4, (new2 ++ new1). rewrite <- !app_assoc.
    split; [reflexivity|]. split; [now constructor|].
    split; [assumption|]. simpl. now apply Forall2_app.
  - assert (Hrep : exists s1 s2, s = s1 ++ s2 /\ Forall (fun c => p c = true) s1 /\
                                 in_range lo hi (length s1) /\ k s2 c = Some res).
    { destruct g; [apply rep_greedy_sound in H | apply rep_lazy_sound in H]; exact H. }
    destruct Hrep as (s1 & s2 & -> & Hall & Hrange & Hk).
    exists s1, s2, []. split; [reflexivity|]. split; [now constructor|].
    split; [assumption | constructor].
  - destruct (IH1 _ _ _ _ H) as (s1 & s2 & new & -> & Hm & Hk & Hc).
    rewrite firstn_consumed in Hk.
    exists s1, s2, ((n, s1) :: new). split; [reflexivity|].
    split; [now constructor|]. split; [assumption|].
    simpl. constructor; [|assumption]. simpl. now split.
Qed.
End CaptureFacts.

Lemma search_from_captures (r : regex) (s : pystr) (c : captures) :
  search_from r s = Some c -> captured c (group_patterns r).
Proof.
  assert (Hhere : forall s0 c0,
             re_match r s0 [] (fun _ c1 => Some c1) = Some c0 ->
             captured c0 (group_patterns r)).
  { intros s0 c0 Hm. apply re_match_captures in Hm.
    destruct Hm as (s1 & s2 & new & _ & _ & Hk & Hc).
    rewrite app_nil_r in Hk. now injection Hk as <-. }
  induction s as [|a s IH]; simpl.
  - destruct (re_match r [] [] (fun _ c0 => Some c0)) as [c0|] eqn:Hm; [|discriminate].
    intro H. injection H as <-. eauto.
  - destruct (re_match r (a :: s) [] (fun _ c0 => Some c0)) as [c0|] eqn:Hm.
    + intro H. injection H as <-. eauto.
    + exact IH.
Qed.

Lemma captured_lookup (c : captures) (ps : list (nat * regex)) (n : nat) :
  captured c ps ->
  match lookup_pattern n ps with
  | Some r => exists v, lookup_group n c = Some v /\ matches r v
  | None => lookup_group n c = None
  end.
Proof.
  unfold captured. induction 1 as [|[m v] [m' r] c ps [Hfst Hm] _ IH]; simpl.
  - reflexivity.
  - simpl in Hfst, Hm. subst m'. destruct (m =? n); [eauto | exact IH].
Qed.

(** [m.group(n)] after a successful search is a string of what group
    [n] of the pattern encloses. *)
Lemma group_matches (r rn : regex) (line : pystr) (m : MatchObject) (n : nat) :
  re_search r line = Some m ->
  lookup_pattern n (group_patterns r) = Some rn ->
  matches rn (group m n).
Proof.
  unfold re_search, group.
  destruct (search_from r line) as [c|] eqn:Hs; [|discriminate].
  intros H Hn. injection H as <-. simpl.
  apply search_from_captures in Hs.
  pose proof (captured_lookup n Hs) as Hl. rewrite Hn in Hl.
  destruct Hl as (v & -> & Hv). exact Hv.
Qed.

(** Inversions of [matches]. *)
Lemma matches_cat_inv (r1 r2 : regex) (s : pystr) :
  matches (Cat r1 r2) s -> exists s1 s2, s = s1 ++ s2 /\ matches r1 s1 /\ matches r2 s2.
Proof. inversion 1; subst. eauto. Qed.

Lemma matches_rep_inv g lo hi p (s : pystr) :
  matches (Rep g lo hi p) s ->
  Forall (fun c => p c = true) s /\ in_range lo hi (length s).
Proof. inversion 1; subst. auto. Qed.

Lemma matches_cls_inv p (s : pystr) :
  matches (Cls p) s -> exists c, s = [c] /\ p c = true.
Proof. inversion 1; subst. eauto. Qed.

Lemma matches_eps_inv (s : pystr) : matches Eps s -> s = [].
Proof. now inversion 1. Qed.

Lemma matches_literal (lit s : pystr) : matches (literal lit) s <-> s = lit.
Proof.
  revert s. induction lit as [|c lit IH]; intro s; simpl.
  - split; [apply matches_eps_inv | intros ->; constructor].
  - split.
    + intro H. apply matches_cat_inv in H. destruct H as (s1 & s2 & -> & H1 & H2).
      apply matches_cls_inv in H1. destruct H1 as (a & -> & Ha).
      apply Ascii.eqb_eq in Ha. subst a. apply IH in H2. now subst.
    + intros ->. change (c :: lit) with ([c] ++ lit).
      constructor; [constructor; apply Ascii.eqb_refl | now apply IH].
Qed.

Lemma matches_literal_i (lit s : pystr) :
  matches (literal_i lit) s <-> same_ignoring_case s lit.
Proof.
  unfold same_ignoring_case. revert s. induction lit as [|c lit IH]; intro s; simpl.
  - split.
    + intro H. apply matches_eps_inv in H. now subst.
    + destruct s; [constructor | discriminate].
  - split.
    + intro H. apply matches_cat_inv in H. destruct H as (s1 & s2 & -> & H1 & H2).
      apply matches_cls_inv in H1. destruct H1 as (a & -> & Ha).
      apply Ascii.eqb_eq in Ha. apply IH in H2. simpl. now rewrite Ha, H2.
    + destruct s as [|a s]; [discriminate|]. simpl. intro H. injection H as Ha Hs.
      change (a :: s) with ([a] ++ s).
      constructor; [constructor; unfold exactly_i; rewrite Ha; apply Ascii.eqb_refl|].
      now apply IH.
Qed.

(** [re.search] succeeds exactly when a string of the pattern stands
    somewhere in the line. *)
Lemma re_search_iff (r : regex) (line : pystr) :
  re_search r line <> None <->
  exists pre body post, line = pre ++ body ++ post /\ matches r body.
Proof.
  unfold re_search. split.
  - intro H. destruct (search_from r line) as [c|] eqn:Hs; [|congruence].
    apply search_from_sound in Hs.
    destruct Hs as (pre & body & post & Hl & Hm & _). eauto.
  - intros (pre & body & post & -> & Hm).
    pose proof (@search_from_complete r pre body post Hm) as H.
    destruct (search_from r (pre ++ body ++ post)); congruence.
Qed.

(** X1: the marker tests are substring tests that ignore the case of
    letters: a line counts as holding a marker when the marker's text
    stands anywhere in it, in any mix of upper and lower case. *)
Theorem marker_anywhere_any_case (marker line : pystr) :
  has_marker marker line = true <->
  exists pre body post,
    line = pre ++ body ++ post /\ same_ignoring_case body marker.
Proof.
  unfold has_marker.
  assert (H : re_search (literal_i marker) line <> None <->
              exists pre body post,
                line = pre ++ body ++ post /\ same_ignoring_case body marker).
  { rewrite re_search_iff. split; intros (pre & body & post & Hl & Hm);
      exists pre, body, post; (split; [assumption|]); now apply matches_literal_i. }
  rewrite <- H. destruct (re_search (literal_i marker) line); split; congruence.
Qed.

Lemma allowed_ip_dotted_quad (line a : pystr) :
  allowed_ip line = Some a -> dotted_quad a.
Proof.
  unfold allowed_ip.
  destruct (re_search allowFromRegex line) as [m|] eqn:Hs; [|discriminate].
  intro H. injection H as <-.
  pose proof (@group_matches allowFromRegex _ line m 1 Hs eq_refl) as Hm.
  repeat (apply matches_cat_inv in Hm;
          let s1 := fresh "s" in let s2 := fresh "s" in
          let H1 := fresh "H" in let E := fresh "E" in
          destruct Hm as (s1 & s2 & E & H1 & Hm)).
  repeat match goal with
         | H : matches (literal _) _ |- _ => apply matches_literal in H
         | H : matches (between _ _ _) _ |- _ => apply matches_rep_inv in H
         end.
  subst. unfold dotted_quad, octet, in_range in *.
  do 4 eexists. split; [eassumption|]. tauto.
Qed.

Lemma scan_step_authorized (st : ScanState) (line : pystr) :
  (forall a, In a (authorizedIps (scan_step st line)) ->
             In a (authorizedIps st) \/ allowed_ip line = Some a) /\
  (NoDup (authorizedIps st) -> NoDup (authorizedIps (scan_step st line))).
Proof.
  unfold scan_step.
  destruct (has_marker beginScriptSection line); [simpl; auto|].
  destruct (has_marker endScriptSection line); simpl; [auto|].
  destruct (insideScriptSection st =? 1); [|auto].
  rewrite scan_inside_eq.
  destruct (scan_inside_authorized st line) as (Hin & Hnd & _).
  split; [|assumption]. intros a Ha. now apply Hin.
Qed.

Lemma fold_scan_authorized (l : list pystr) (st : ScanState) :
  (forall a, In a (authorizedIps (fold_left scan_step l st)) ->
             In a (authorizedIps st) \/
             exists line, In line l /\ allowed_ip line = Some a) /\
  (NoDup (authorizedIps st) -> NoDup (authorizedIps (fold_left scan_step l st))).
Proof.
  revert st. induction l as [|line l IH]; intro st; simpl.
  - auto.
  - destruct (IH (scan_step st line)) as [Hin Hnd].
    destruct (scan_step_authorized st line) as [Hin1 Hnd1].
    split; [|auto].
    intros a Ha. destruct (Hin a Ha) as [H|(l' & Hl' & H)]; [|eauto].
    destruct (Hin1 a H); eauto.
Qed.

(** X2: whatever the config file holds, the authorized addresses have
    no duplicates, each is the address of an Allow-from line of the
    file, and each has the form of four runs of one to three digits
    with dots between. *)
Theorem authorized_are_dotted_quads (configLines : list pystr) :
  NoDup (authorizedIps (scan_config configLines)) /\
  forall a, In a (authorizedIps (scan_config configLines)) ->
            dotted_quad a /\
            exists line, In line configLines /\ allowed_ip line = Some a.
Proof.
  unfold scan_config.
  destruct (fold_scan_authorized configLines scan_init) as [Hin Hnd].
  split; [apply Hnd; constructor|].
  intros a Ha. destruct (Hin a Ha) as [[]|(line & Hl & Hal)].
  split; [now apply allowed_ip_dotted_quad with (line := line) | eauto].
Qed.

(* ================================================================== *)
(** * More on the pending requests *)
(* ================================================================== *)

(** X3: no request is lost: the address of every log line that matches
    the access-log pattern and is not authorized is among the pending
    addresses, and a pending entry carries it. *)
Theorem unauthorized_requests_become_pending
        (authorized requests : list pystr) (line : pystr) (acc : MatchObject) :
  In line requests ->
  re_search accessLogRegex line = Some acc ->
  ~ In (group acc 1) authorized ->
  In (group acc 1) (pending_ips authorized requests) /\
  exists item, In item (pending_entries authorized requests) /\
               ip item = group acc 1.
Proof.
  intros Hline Hacc Hnew.
  assert (Hips : In (group acc 1) (pending_ips authorized requests)).
  { unfold pending_ips, drop_authorized_ips. apply filter_In. split.
    - exact (inv_seen (parse_requests_inv requests) line Hline Hacc).
    - apply negb_true_iff. now apply py_in_not_In. }
  split; [exact Hips|].
  rewrite pending_ips_entries in Hips. apply in_map_iff in Hips.
  destruct Hips as (item & Hip & Hitem). eauto.
Qed.

(** X4: the list of addresses printed before the prompt is, entry by
    entry and in the same order, the list of the addresses of the
    entries the write step receives. *)
Theorem operator_sees_what_is_written (authorized requests : list pystr) :
  pending_ips authorized requests = map ip (pending_entries authorized requests) /\
  length (pending_ips authorized requests) =
  length (pending_entries authorized requests).
Proof.
  split.
  - apply pending_ips_entries.
  - rewrite pending_ips_entries. apply length_map.
Qed.

Lemma entry_fields (line : pystr) (acc : MatchObject) :
  re_search accessLogRegex line = Some acc ->
  (ip (entry_of acc) <> [] /\
   Forall (fun c => is_space c = false) (ip (entry_of acc))) /\
  ~ In dquote (userAgent (entry_of acc)) /\
  (exists h m s, time (entry_of acc) = h ++ ":" ++ m ++ ":" ++ s /\
                 digits h /\ digits m /\ digits s) /\
  ~ In ":"%char (date (entry_of acc)).
Proof.
  intro Hs. unfold entry_of. cbn [ip userAgent time date].
  pose proof (@group_matches accessLogRegex _ line acc 1 Hs eq_refl) as H1.
  pose proof (@group_matches accessLogRegex _ line acc 13 Hs eq_refl) as H13.
  pose proof (@group_matches accessLogRegex _ line acc 5 Hs eq_refl) as H5.
  pose proof (@group_matches accessLogRegex _ line acc 4 Hs eq_refl) as H4.
  apply matches_rep_inv in H1, H13, H4. unfold in_range in *.
  split; [|split; [|split]].
  - destruct H1 as [Hall [Hlen _]]. split.
    + intro E. rewrite E in Hlen. simpl in Hlen. lia.
    + eapply Forall_impl; [|exact Hall]. intros c Hc.
      unfold non_space in Hc. now apply negb_true_iff in Hc.
  - destruct H13 as [Hall _]. intro Hin. rewrite Forall_forall in Hall.
    specialize (Hall _ Hin). unfold other_than in Hall.
    rewrite Ascii.eqb_refl in Hall. discriminate.
  - repeat (apply matches_cat_inv in H5;
            let s1 := fresh "s" in let s2 := fresh "s" in
            let H1 := fresh "H" in let E := fresh "E" in
            destruct H5 as (s1 & s2 & E & H1 & H5)).
    repeat match goal with
           | H : matches (literal _) _ |- _ => apply matches_literal in H
           | H : matches (plus _) _ |- _ => apply matches_rep_inv in H
           end.
    subst. unfold digits, in_range in *.
    do 3 eexists. split; [eassumption|]. tauto.
  - destruct H4 as [Hall _]. intro Hin. rewrite Forall_forall in Hall.
    specialize (Hall _ Hin). unfold other_than in Hall.
    rewrite Ascii.eqb_refl in Hall. discriminate.
Qed.

(** X5: what a pending entry holds: the address is a non-empty run
    without white space, the user agent holds no double quote, the time
    is three runs of digits with colons between, the date holds no
    colon. *)
Theorem pending_entry_fields (authorized requests : list pystr) (item : IpRequest) :
  In item (pending_entries authorized requests) ->
  (ip item <> [] /\ Forall (fun c => is_space c = false) (ip item)) /\
  ~ In dquote (userAgent item) /\
  (exists h m s, time item = h ++ ":" ++ m ++ ":" ++ s /\
                 digits h /\ digits m /\ digits s) /\
  ~ In ":"%char (date item).
Proof.
  intro H. unfold pending_entries, drop_authorized_entries in H.
  apply filter_In in H. destruct H as [H _].
  destruct (inv_first (parse_requests_inv requests) item H)
    as (l1 & line & l2 & acc & _ & Hacc & -> & _).
  exact (@entry_fields line acc Hacc).
Qed.

(* ================================================================== *)
(** * More on the search and on the write step *)
(* ================================================================== *)

Lemma find_insertIndex_result (fuel : nat) (configLines : list pystr) (i : nat) :
  (exists j, find_insertIndex fuel configLines i = Ret j) \/
  find_insertIndex fuel configLines i = Raise IndexError \/
  find_insertIndex fuel configLines i = OutOfFuel.
Proof.
  revert i. induction fuel as [|fuel IH]; intro i; simpl; [auto|].
  destruct (nth_error configLines i) as [line|]; [|auto].
  destruct (has_marker endScriptSection line); [eauto | apply IH].
Qed.

Lemma find_insertIndex_raise (fuel : nat) (configLines : list pystr) (i : nat) :
  find_insertIndex fuel configLines i = Raise IndexError ->
  forall k l, i <= k -> nth_error configLines k = Some l -> is_end l = false.
Proof.
  unfold is_end. revert i. induction fuel as [|fuel IH]; intros i H k l Hk Hl;
    simpl in H; [discriminate|].
  destruct (nth_error configLines i) as [line|] eqn:Hi.
  - destruct (has_marker endScriptSection line) eqn:Hm; [discriminate|].
    destruct (Nat.eq_dec k i) as [->|Hne]; [congruence|].
    apply (IH _ H k l); [lia | assumption].
  - apply nth_error_None in Hi.
    assert (k < length configLines) by (apply nth_error_Some; congruence). lia.
Qed.

(** X6: the search for the insertion point always ends; it returns [j]
    exactly when [j] is the first index from 1 on whose line holds the
    end marker, and raises IndexError exactly when there is none. *)
Theorem insertion_point_is_first_end_marker (configLines : list pystr) :
  let search := find_insertIndex (S (length configLines)) configLines 1 in
  ((exists j, search = Ret j) \/ search = Raise IndexError) /\
  (forall j,
      search = Ret j <->
      1 <= j /\
      (exists line, nth_error configLines j = Some line /\ is_end line = true) /\
      (forall k l, 1 <= k < j -> nth_error configLines k = Some l ->
                   is_end l = false)) /\
  (search = Raise IndexError <->
   forall k l, 1 <= k -> nth_error configLines k = Some l -> is_end l = false).
Proof.
  cbv zeta. split; [|split].
  - destruct (find_insertIndex_result (S (length configLines)) configLines 1)
      as [H|[H|H]]; auto.
    exfalso. revert H. apply find_insertIndex_total. lia.
  - intro j. split.
    + intro H. apply find_insertIndex_ret in H. exact H.
    + intros (Hj & (line & Hline & Hm) & Hbefore).
      apply find_insertIndex_found with (line := line); auto.
      assert (j < length configLines) by (apply nth_error_Some; congruence). lia.
  - split.
    + apply find_insertIndex_raise.
    + intro H. apply find_insertIndex_none; [lia | exact H].
Qed.

Lemma join_insert (i : nat) (x : pystr) (l : list pystr) :
  join (list_insert i x l) = join (firstn i l) ++ x ++ join (skipn i l).
Proof.
  unfold list_insert. rewrite join_app. unfold join. simpl. reflexivity.
Qed.

Lemma write_config_splice (w : World) (content : pystr) (es : list IpRequest) (i : nat) :
  files w configFilePath = Some content ->
  find_insertIndex (S (length (readlines content))) (readlines content) 1 = Ret i ->
  write_config (readlines content) es w =
  (Ret tt,
   written_world
     (join (firstn i (readlines content)) ++ new_content (ctimes w) (ticks w) es ++
      join (skipn i (readlines content)))
     (length es) w).
Proof.
  intros Hf Hi.
  rewrite (write_config_run w (readlines content) es Hf Hi). cbv zeta.
  rewrite join_insert.
  set (data := join (firstn i (readlines content)) ++ _ ++ _).
  assert (Hlen : length content <= length data).
  { subst data. rewrite <- (join_readlines content) at 1.
    rewrite <- (firstn_skipn i (readlines content)) at 1.
    rewrite join_app, !length_app. lia. }
  now rewrite (skipn_all2 _ Hlen), app_nil_r.
Qed.

(** X7: a write step that finds its insertion point leaves a file that
    is the old text up to the insertion line, the new content, and the
    rest of the old text: nothing of the old file is lost, and nothing
    of it is left over behind the new end. *)
Theorem write_splices_new_content (w : World) (content : pystr)
        (es : list IpRequest) (i : nat) :
  files w configFilePath = Some content ->
  find_insertIndex (S (length (readlines content))) (readlines content) 1 = Ret i ->
  exists head tail,
    content = head ++ tail /\
    head = join (firstn i (readlines content)) /\
    files (snd (write_config (readlines content) es w)) configFilePath =
      Some (head ++ new_content (ctimes w) (ticks w) es ++ tail) /\
    fst (write_config (readlines content) es w) = Ret tt.
Proof.
  intros Hf Hi.
  exists (join (firstn i (readlines content))), (join (skipn i (readlines content))).
  split; [|split; [reflexivity|]].
  - now rewrite <- join_app, firstn_skipn, join_readlines.
  - rewrite (write_config_splice w es Hf Hi). split; reflexivity.
Qed.

(* ================================================================== *)
(** * Every run of the script *)
(* ================================================================== *)

Lemma main_no_config (w : World) :
  files w configFilePath = None ->
  main w =
  (SysExit,
   log_event (Print (PyStr (bcolors.BG_RED ++ "Could not find config file" ++
                            bcolors.CLEARALL))) w).
Proof.
  intro Hf. unfold main. unfold bind at 1.
  unfold check_config_exists, bind, os_path_isfile, print, sys_exit.
  now rewrite Hf.
Qed.

Lemma main_no_backup (w : World) (content : pystr) :
  files w configFilePath = Some content ->
  backup_dir w = false ->
  main w = (Raise IOError, log_event (Print (PyStr "Found config file.")) w).
Proof.
  intros Hf Hb. unfold main. unfold bind at 1.
  rewrite (check_config_exists_run w Hf). unfold bind at 1.
  unfold backup_config, bind, time_time, shutil_copy.
  cbn [files backup_dir log_event]. now rewrite Hf, Hb.
Qed.

Lemma main_malformed (w : World) (content : pystr) :
  files w configFilePath = Some content ->
  backup_dir w = true ->
  safety (scan_config (readlines content)) <> 2 ->
  main w =
  (SysExit,
   log_event (Print (PyStr "Error parsing config file. Should have exactly one begin and end script section."))
     (config_parsed content w)).
Proof.
  intros Hf Hb Hs. unfold main. unfold bind at 1.
  rewrite (check_config_exists_run w Hf). unfold bind at 1.
  rewrite (backup_config_run w Hf Hb). unfold bind at 1.
  now rewrite (parse_config_malformed w Hf Hs).
Qed.

Lemma main_until_prompt (w : World) (content : pystr) :
  files w configFilePath = Some content ->
  backup_dir w = true ->
  safety (scan_config (readlines content)) = 2 ->
  run_ips content w <> [] ->
  main w =
  (prompt_operator (run_ips content w) ;;
   write_config (readlines content) (run_entries content w))
    (log_fetched content w).
Proof.
  intros Hf Hb Hs Hp. rewrite (main_until_log w Hf Hb Hs). unfold bind at 1.
  rewrite parse_access_log_run. fold (run_ips content w) (run_entries content w).
  destruct (run_ips content w); [contradiction | reflexivity].
Qed.

Lemma main_nothing_pending (w : World) (content : pystr) :
  files w configFilePath = Some content ->
  backup_dir w = true ->
  safety (scan_config (readlines content)) = 2 ->
  run_ips content w = [] ->
  main w =
  (SysExit,
   log_event (Print (PyStr "Could not find any new requests")) (log_fetched content w)).
Proof.
  intros Hf Hb Hs Hp. rewrite (main_until_log w Hf Hb Hs). unfold bind at 1.
  rewrite parse_access_log_run. fold (run_ips content w). now rewrite Hp.
Qed.

Lemma prompt_operator_eof (w : World) (content : pystr) :
  stdin w = [] ->
  prompt_operator (run_ips content w) (log_fetched content w) =
  (Raise EOFError, log_event (RawInput "Allow ips [y/n]? ") (asking content w)).
Proof.
  intro Hin. unfold prompt_operator, bind, print, print_val, raw_input.
  cbn. now rewrite Hin.
Qed.

Lemma affirmative_eqb (answer : pystr) :
  pystr_eqb answer "y" || pystr_eqb answer "Y" = true <-> affirmative answer.
Proof. unfold affirmative. now rewrite orb_true_iff, !pystr_eqb_eq. Qed.

Lemma main_after_yes (w : World) (content answer : pystr) (rest : list pystr) :
  files w configFilePath = Some content ->
  backup_dir w = true ->
  safety (scan_config (readlines content)) = 2 ->
  run_ips content w <> [] ->
  stdin w = answer :: rest ->
  affirmative answer ->
  main w =
  write_config (readlines content) (run_entries content w)
    (answered content (run_ips content w) rest w).
Proof.
  intros Hf Hb Hs Hp Hin Hyes. rewrite (main_until_prompt w Hf Hb Hs Hp).
  unfold bind at 1. rewrite (prompt_operator_run w content _ Hin).
  apply affirmative_eqb in Hyes. now rewrite Hyes.
Qed.

Lemma main_after_no (w : World) (content answer : pystr) (rest : list pystr) :
  files w configFilePath = Some content ->
  backup_dir w = true ->
  safety (scan_config (readlines content)) = 2 ->
  run_ips content w <> [] ->
  stdin w = answer :: rest ->
  ~ affirmative answer ->
  main w =
  (SysExit,
   log_event (Print (PyStr "Exiting")) (answered content (run_ips content w) rest w)).
Proof.
  intros Hf Hb Hs Hp Hin Hno. rewrite (main_until_prompt w Hf Hb Hs Hp).
  unfold bind at 1. rewrite (prompt_operator_run w content _ Hin).
  rewrite <- affirmative_eqb in Hno. apply not_true_is_false in Hno.
  now rewrite Hno.
Qed.

(** Every run is one of the eight cases. *)
Lemma main_run_case (w : World) : run_case w (main w).
Proof.
  destruct (files w configFilePath) as [content|] eqn:Hf;
    [|rewrite (main_no_config w Hf); now constructor].
  destruct (backup_dir w) eqn:Hb;
    [|rewrite (main_no_backup w Hf Hb); now apply run_no_backup with (content := content)].
  destruct (Nat.eq_dec (safety (scan_config (readlines content))) 2) as [Hs|Hs];
    [|rewrite (main_malformed w Hf Hb Hs); now constructor].
  destruct (run_ips content w) as [|x ips] eqn:Hp;
    [rewrite (main_nothing_pending w Hf Hb Hs Hp); now constructor|].
  assert (Hne : run_ips content w <> []) by (rewrite Hp; discriminate).
  clear x ips Hp.
  destruct (stdin w) as [|answer rest] eqn:Hin.
  - rewrite (main_until_prompt w Hf Hb Hs Hne). unfold bind at 1.
    rewrite (prompt_operator_eof w content Hin). now constructor.
  - destruct (pystr_eqb answer "y" || pystr_eqb answer "Y") eqn:Hyes.
    + apply affirmative_eqb in Hyes.
      rewrite (main_after_yes w Hf Hb Hs Hne Hin Hyes).
      assert (Hf' : files (answered content (run_ips content w) rest w) configFilePath
                    = Some content) by exact Hf.
      destruct (find_insertIndex_result (S (length (readlines content)))
                                        (readlines content) 1) as [[i Hi]|[Hi|Hi]].
      * rewrite (write_config_splice _ (run_entries content w) Hf' Hi).
        change (ctimes (answered content (run_ips content w) rest w))
          with (ctimes w).
        change (ticks (answered content (run_ips content w) rest w))
          with (ticks w).
        now apply run_written with (answer := answer).
      * rewrite (write_config_overrun _ (readlines content) (run_entries content w)
                                      Hf' Hi).
        now apply run_overrun with (answer := answer).
      * exfalso. revert Hi. apply find_insertIndex_total. lia.
    + assert (Hno : ~ affirmative answer).
      { rewrite <- affirmative_eqb. now rewrite Hyes. }
      rewrite (main_after_no w Hf Hb Hs Hne Hin Hno).
      now apply run_declined with (answer := answer).
Qed.

(** ** The files after a run *)

Lemma files_backed_up (content : pystr) (w : World) (p : pystr) :
  files (backed_up content w) p =
  if pystr_eqb p ("backup/" ++ epoch w) then Some content else files w p.
Proof. reflexivity. Qed.

Lemma files_log_fetched (content : pystr) (w : World) (p : pystr) :
  files (log_fetched content w) p = files (backed_up content w) p.
Proof. reflexivity. Qed.

Lemma files_answered (content : pystr) (ips rest : list pystr) (w : World) (p : pystr) :
  files (answered content ips rest w) p = files (backed_up content w) p.
Proof. reflexivity. Qed.

Lemma files_written_world (data : pystr) (n : nat) (w : World) (p : pystr) :
  files (written_world data n w) p =
  if pystr_eqb p configFilePath then Some data else files w p.
Proof. reflexivity. Qed.

Lemma backup_path_is_not_config (t : pystr) :
  pystr_eqb ("backup/" ++ t) configFilePath = false /\
  pystr_eqb configFilePath ("backup/" ++ t) = false.
Proof. split; reflexivity. Qed.

(** X8: a run changes the config file only when it ends normally, and
    then the operator's answer was y or Y; on every other way out
    (missing file, failed backup, malformed region, nothing pending, no
    answer, another answer, a search that overruns) the file is as it
    was. *)
Theorem config_changes_only_after_yes (w : World) :
  files (snd (main w)) configFilePath <> files w configFilePath ->
  fst (main w) = Ret tt /\
  exists answer rest, stdin w = answer :: rest /\ affirmative answer.
Proof.
  destruct (main_run_case w); intro Hchanged;
    try (exfalso; apply Hchanged; reflexivity).
  split; [reflexivity | eauto].
Qed.

(** X9: once the backup is taken it stays: whatever way the run goes
    on, the file under backup/ named by the time still holds the config
    file's text as it was before the run. *)
Theorem backup_holds_original (w : World) (content : pystr) :
  files w configFilePath = Some content ->
  backup_dir w = true ->
  files (snd (main w)) ("backup/" ++ epoch w) = Some content.
Proof.
  intros Hf Hb.
  destruct (main_run_case w) as [Hf'|c Hf' Hb'|c Hf'|c Hf'|c Hf'|c a r Hf'|c a r Hf'
                                 |c a r i Hf'];
    try congruence;
    assert (c = content) by congruence; subst c; cbn [snd].
  - change (files (backed_up content w) ("backup/" ++ epoch w) = Some content).
    rewrite files_backed_up. now rewrite pystr_eqb_refl.
  - change (files (backed_up content w) ("backup/" ++ epoch w) = Some content).
    rewrite files_backed_up. now rewrite pystr_eqb_refl.
  - change (files (backed_up content w) ("backup/" ++ epoch w) = Some content).
    rewrite files_backed_up. now rewrite pystr_eqb_refl.
  - change (files (backed_up content w) ("backup/" ++ epoch w) = Some content).
    rewrite files_backed_up. now rewrite pystr_eqb_refl.
  - change (files (backed_up content w) ("backup/" ++ epoch w) = Some content).
    rewrite files_backed_up. now rewrite pystr_eqb_refl.
  - rewrite files_written_world, (proj1 (backup_path_is_not_config (epoch w))).
    rewrite files_answered, files_backed_up. now rewrite pystr_eqb_refl.
Qed.

(** X10: a run touches two files at most, the config file and the
    backup it names by the time: every other path holds after the run
    what it held before. *)
Theorem other_files_untouched (w : World) (p : pystr) :
  p <> configFilePath ->
  p <> "backup/" ++ epoch w ->
  files (snd (main w)) p = files w p.
Proof.
  intros Hcfg Hbak. apply pystr_eqb_neq in Hcfg, Hbak.
  destruct (main_run_case w); cbn [snd]; try reflexivity.
  - change (files (backed_up content w) p = files w p).
    now rewrite files_backed_up, Hbak.
  - change (files (backed_up content w) p = files w p).
    now rewrite files_backed_up, Hbak.
  - change (files (backed_up content w) p = files w p).
    now rewrite files_backed_up, Hbak.
  - change (files (backed_up content w) p = files w p).
    now rewrite files_backed_up, Hbak.
  - change (files (backed_up content w) p = files w p).
    now rewrite files_backed_up, Hbak.
  - rewrite files_written_world, Hcfg, files_answered, files_backed_up.
    now rewrite Hbak.
Qed.

(** ** The events of a run *)

Section Counting.
Variable f : event -> bool.

Lemma count_log_event (e : event) (w : World) :
  length (filter f (trace (log_event e w))) =
  length (filter f (trace w)) + (if f e then 1 else 0).
Proof.
  cbn [trace log_event]. rewrite filter_app, length_app. simpl.
  destruct (f e); reflexivity.
Qed.

Lemma count_prints (l : list pystr) (w : World) :
  (forall s, f (Print (PyStr s)) = false) ->
  length (filter f (trace (log_events (map (fun s => Print (PyStr s)) l) w))) =
  length (filter f (trace w)).
Proof.
  intro Hf. cbn [trace log_events]. rewrite filter_app, length_app.
  assert (E : filter f (map (fun s => Print (PyStr s)) l) = []).
  { induction l as [|s l IH]; simpl; [reflexivity | now rewrite Hf]. }
  rewrite E. simpl. lia.
Qed.

Lemma count_log_fetched (content : pystr) (w : World) :
  (forall v, f (Print v) = false) ->
  length (filter f (trace (log_fetched content w))) =
  length (filter f (trace w)) + (if f (Popen recentRequestCommand) then 1 else 0).
Proof.
  intro Hf. unfold log_fetched, config_parsed, backed_up.
  rewrite !count_log_event, count_prints, !count_log_event by (intro; apply Hf).
  change (trace (set_file _ _ ?w')) with (trace w').
  rewrite count_log_event, !Hf. lia.
Qed.

Lemma count_asking (content : pystr) (w : World) :
  (forall v, f (Print v) = false) ->
  length (filter f (trace (asking content w))) =
  length (filter f (trace w)) + (if f (Popen recentRequestCommand) then 1 else 0).
Proof.
  intro Hf. unfold asking.
  rewrite !count_log_event, count_log_fetched, !Hf by assumption. lia.
Qed.

Lemma count_answered (content : pystr) (rest : list pystr) (w : World) :
  (forall v, f (Print v) = false) ->
  length (filter f (trace (answered content (run_ips content w) rest w))) =
  length (filter f (trace w)) + (if f (Popen recentRequestCommand) then 1 else 0) +
  (if f (RawInput "Allow ips [y/n]? ") then 1 else 0).
Proof.
  intro Hf.
  change (trace (answered content (run_ips content w) rest w))
    with (trace (log_event (RawInput "Allow ips [y/n]? ") (asking content w))).
  now rewrite count_log_event, count_asking.
Qed.

Lemma count_written_world (data : pystr) (n : nat) (w : World) :
  (forall v, f (Print v) = false) ->
  length (filter f (trace (written_world data n w))) =
  length (filter f (trace w)) +
  (if f (Popen "service apache2 restart") then 1 else 0).
Proof.
  intro Hf. unfold written_world. rewrite !count_log_event.
  change (trace (set_file _ _ (ticked n ?w'))) with (trace w').
  rewrite count_log_event, !Hf. lia.
Qed.
End Counting.

(** X11: the service is restarted once when the run ends normally and
    not at all otherwise; the operator is asked at most once, and
    exactly once on a run that ends normally. *)
Theorem restart_only_after_write (w : World) :
  restarts (trace (snd (main w))) =
    restarts (trace w) + (match fst (main w) with Ret _ => 1 | _ => 0 end) /\
  prompts (trace (snd (main w))) <= prompts (trace w) + 1 /\
  (fst (main w) = Ret tt -> prompts (trace (snd (main w))) = prompts (trace w) + 1).
Proof.
  assert (Hr : forall v, is_restart (Print v) = false) by reflexivity.
  assert (Hp : forall v, is_prompt (Print v) = false) by reflexivity.
  unfold restarts, prompts.
  destruct (main_run_case w); cbn [fst snd];
    rewrite ?count_written_world, ?count_log_event, ?count_answered,
      ?count_asking, ?count_log_fetched, ?count_prints by (intro; reflexivity);
    repeat match goal with
           | |- context [trace (config_parsed ?c ?w0)] =>
               unfold config_parsed, backed_up;
               rewrite ?count_prints, ?count_log_event by (intro; reflexivity);
               change (trace (set_file ?a ?b ?w')) with (trace w');
               rewrite ?count_log_event
           end;
    cbn [is_restart is_prompt];
    change (pystr_eqb recentRequestCommand "service apache2 restart") with false;
    change (pystr_eqb "service apache2 restart" "service apache2 restart") with true;
    (split; [lia | split; [lia | intro; try discriminate; lia]]).
Qed.

(** ** The ways out and the way through *)

(** X12: a run on a world without the config file prints its message
    and exits: no file is made or changed, nothing is read from the
    operator, nothing else is printed or run. *)
Theorem missing_config_stops_run (w : World) :
  files w configFilePath = None ->
  fst (main w) = SysExit /\
  (forall p, files (snd (main w)) p = files w p) /\
  stdin (snd (main w)) = stdin w /\
  trace (snd (main w)) =
    trace w ++ [Print (PyStr (bcolors.BG_RED ++ "Could not find config file" ++
                              bcolors.CLEARALL))].
Proof.
  intro Hf. rewrite (main_no_config w Hf). repeat split.
Qed.

(** X13: when the number of lines of the config file that hold a marker
    is not two, the run stops after the scan with the parse error: the
    backup is there, the config file is as it was, the access log is not
    read and the operator is not asked. *)
Theorem malformed_config_stops_run (w : World) (content : pystr) :
  files w configFilePath = Some content ->
  backup_dir w = true ->
  count_lines (fun line => is_begin line || is_end line) (readlines content) <> 2 ->
  fst (main w) = SysExit /\
  files (snd (main w)) configFilePath = Some content /\
  stdin (snd (main w)) = stdin w /\
  trace (snd (main w)) =
    trace w ++
    [Print (PyStr "Found config file."); Print (PyStr "Created config backup.");
     Print (PyStr "Parsing config file")] ++
    map (fun s => Print (PyStr s)) (scan_out (scan_config (readlines content))) ++
    [Print (PyStr "Error parsing config file. Should have exactly one begin and end script section.")].
Proof.
  intros Hf Hb Hcount. rewrite <- scan_config_safety in Hcount.
  rewrite (main_malformed w Hf Hb Hcount).
  split; [reflexivity|]. split; [exact Hf|]. split; [reflexivity|].
  cbn [snd]. unfold config_parsed, backed_up.
  cbn [trace log_event log_events set_file]. rewrite <- !app_assoc. reflexivity.
Qed.

Lemma region_lines_after_write (content : pystr) before b inside e after
      (blocks : list pystr) :
  managed_region (readlines content) before b inside e after ->
  Forall is_line blocks ->
  let i := length (before ++ b :: inside) in
  readlines (join (firstn i (readlines content)) ++ join blocks ++
             join (skipn i (readlines content))) =
  before ++ b :: inside ++ blocks ++ e :: after.
Proof.
  intros [Hsplit _ _ _ _ _ _ _] Hblocks i.
  assert (Hsplit' : readlines content = (before ++ b :: inside) ++ e :: after)
    by (now rewrite <- app_assoc).
  subst i. rewrite Hsplit', firstn_length_app, skipn_length_app.
  destruct (@readlines_split content (before ++ b :: inside) (e :: after) Hsplit')
    as [Hhead Htail]; [discriminate|].
  rewrite readlines_lines by assumption.
  rewrite readlines_lines by assumption.
  now rewrite Htail, <- app_assoc.
Qed.

(** X14: from the log to the file: on a config file with a valid
    managed region, with pending requests and the answer y or Y, the run
    ends normally and the config file then reads, line by line, as
    before with the three lines of each pending request of the log, in
    their order, right before the end-marker line. *)
Theorem granted_requests_written (w : World) (content answer : pystr)
        (rest : list pystr) before b inside e after :
  managed_region (readlines content) before b inside e after ->
  files w configFilePath = Some content ->
  backup_dir w = true ->
  run_entries content w <> [] ->
  stdin w = answer :: rest ->
  affirmative answer ->
  (forall n, no_newline (ctimes w n)) ->
  fst (main w) = Ret tt /\
  config_lines_after (main w) =
    Some (before ++ b :: inside ++
          block_lines (ctimes w) (ticks w) (run_entries content w) ++ e :: after).
Proof.
  intros Hreg Hf Hb Hes Hin Hyes Hclock.
  assert (Hips : run_ips content w <> []).
  { unfold run_ips. rewrite pending_ips_entries. intro E.
    apply map_eq_nil in E. contradiction. }
  rewrite (main_after_yes w Hf Hb (managed_region_safety Hreg) Hips Hin Hyes).
  assert (Hf' : files (answered content (run_ips content w) rest w) configFilePath
                = Some content) by exact Hf.
  rewrite (write_config_splice _ (run_entries content w) Hf'
             (find_insertIndex_region Hreg)).
  split; [reflexivity|].
  unfold config_lines_after. cbn [snd].
  rewrite files_written_world, pystr_eqb_refl.
  change (ctimes (answered content (run_ips content w) rest w)) with (ctimes w).
  change (ticks (answered content (run_ips content w) rest w)) with (ticks w).
  rewrite new_content_join. f_equal.
  apply region_lines_after_write; [exact Hreg|].
  apply block_lines_are_lines; [assumption|].
  intros item Hitem. now apply pending_entries_no_newline in Hitem.
Qed.

(* ================================================================== *)
(** * Concrete runs, continued *)
(* ================================================================== *)

(** A new address between two requests of an authorized one. *)
Lemma unauthorized_requests_become_pending_witness :
  In "9.9.9.9"
     (pending_ips ["10.0.0.5"]
        [request_from "10.0.0.5" "A"; request_from "9.9.9.9" "B";
         request_from "10.0.0.5" "C"]).
Proof.
  destruct (re_search accessLogRegex (request_from "9.9.9.9" "B")) as [acc|] eqn:Hacc;
    [|vm_compute in Hacc; discriminate Hacc].
  assert (Hip : group acc 1 = "9.9.9.9").
  { vm_compute in Hacc. injection Hacc as <-. reflexivity. }
  assert (Hline : In (request_from "9.9.9.9" "B")
                     [request_from "10.0.0.5" "A"; request_from "9.9.9.9" "B";
                      request_from "10.0.0.5" "C"])
    by (right; left; reflexivity).
  assert (Hnew : ~ In (group acc 1) ["10.0.0.5"])
    by (rewrite Hip; intros [H|[]]; discriminate H).
  pose proof (proj1 (@unauthorized_requests_become_pending
                       ["10.0.0.5"] _ _ acc Hline Hacc Hnew)) as H.
  rewrite Hip in H. exact H.
Defined.

(** The entry of one request. *)
Lemma pending_entry_fields_witness :
  ip example_entry <> [] /\ ~ In dquote (userAgent example_entry).
Proof.
  assert (Hin : In example_entry
                   (pending_entries [] [request_from "9.9.9.9" "TestAgent/1.0"]))
    by (vm_compute; left; reflexivity).
  destruct (@pending_entry_fields [] [request_from "9.9.9.9" "TestAgent/1.0"]
              example_entry Hin) as ((Hip & _) & Hua & _).
  split; assumption.
Defined.

(** The write step on the example config finds line 4 and splices the
    new content in front of it. *)
Lemma write_splices_new_content_witness :
  exists head tail,
    example_config = head ++ tail /\
    head = join (firstn 4 (readlines example_config)) /\
    files (snd (write_config (readlines example_config) [example_entry]
                  (example_world example_config [] [])))
          configFilePath =
      Some (head ++ new_content (fun _ => "Mon Jul 20 10:00:00 2015") 0
                      [example_entry] ++ tail) /\
    fst (write_config (readlines example_config) [example_entry]
           (example_world example_config [] [])) = Ret tt.
Proof.
  refine (@write_splices_new_content (example_world example_config [] [])
            example_config [example_entry] 4 eq_refl _).
  vm_compute. reflexivity.
Defined.

(** A run that changes the config file: the operator said y. *)
Lemma config_changes_only_after_yes_witness :
  let w := example_world example_config
             (request_from "9.9.9.9" "TestAgent/1.0" ++ [newline]) ["y"] in
  fst (main w) = Ret tt /\
  exists answer rest, stdin w = answer :: rest /\ affirmative answer.
Proof.
  cbv zeta.
  refine (@config_changes_only_after_yes
            (example_world example_config
               (request_from "9.9.9.9" "TestAgent/1.0" ++ [newline]) ["y"]) _).
  vm_compute. intro H. discriminate H.
Defined.

(** The backup after a run that rewrote the config file. *)
Lemma backup_holds_original_witness :
  files (snd (main (example_world example_config
                      (request_from "9.9.9.9" "TestAgent/1.0" ++ [newline]) ["y"])))
        "backup/1437386400.0" = Some example_config.
Proof.
  exact (@backup_holds_original
           (example_world example_config
              (request_from "9.9.9.9" "TestAgent/1.0" ++ [newline]) ["y"])
           example_config eq_refl eq_refl).
Defined.

(** Another file of the same directory is left alone. *)
Lemma other_files_untouched_witness :
  files (snd (main (example_world example_config
                      (request_from "9.9.9.9" "TestAgent/1.0" ++ [newline]) ["y"])))
        "/etc/apache2/sites-available/default-ssl" = None.
Proof.
  refine (@other_files_untouched
            (example_world example_config
               (request_from "9.9.9.9" "TestAgent/1.0" ++ [newline]) ["y"])
            "/etc/apache2/sites-available/default-ssl" _ _);
    intro H; discriminate H.
Defined.

(** A world without the config file. *)
Lemma missing_config_stops_run_witness :
  let w := {| files := fun _ => None; backup_dir := true; shell := fun _ => [];
              stdin := ["y"]; epoch := "1437386400.0"; ctimes := fun _ => [];
              ticks := 0; trace := [] |} in
  fst (main w) = SysExit /\
  (forall p, files (snd (main w)) p = None) /\
  stdin (snd (main w)) = ["y"] /\
  trace (snd (main w)) =
    [Print (PyStr (bcolors.BG_RED ++ "Could not find config file" ++
                   bcolors.CLEARALL))].
Proof.
  cbv zeta.
  exact (@missing_config_stops_run
           {| files := fun _ => None; backup_dir := true; shell := fun _ => [];
              stdin := ["y"]; epoch := "1437386400.0"; ctimes := fun _ => [];
              ticks := 0; trace := [] |} eq_refl).
Defined.

(** A config file with a begin marker and no end marker. *)
Lemma malformed_config_stops_run_witness :
  let w := example_world (join [begin_line; "Allow from 10.0.0.5" ++ [newline]])
             (request_from "9.9.9.9" "TestAgent/1.0" ++ [newline]) ["y"] in
  fst (main w) = SysExit /\
  files (snd (main w)) configFilePath =
    Some (join [begin_line; "Allow from 10.0.0.5" ++ [newline]]) /\
  stdin (snd (main w)) = ["y"].
Proof.
  cbv zeta.
  destruct (@malformed_config_stops_run
              (example_world (join [begin_line; "Allow from 10.0.0.5" ++ [newline]])
                 (request_from "9.9.9.9" "TestAgent/1.0" ++ [newline]) ["y"])
              (join [begin_line; "Allow from 10.0.0.5" ++ [newline]])
              eq_refl eq_refl) as (H1 & H2 & H3 & _).
  - vm_compute. intro H. discriminate H.
  - split; [exact H1 | split; [exact H2 | exact H3]].
Defined.

(** The end-to-end example: one request from 9.9.9.9 and the answer y. *)
Lemma granted_requests_written_witness :
  let w := example_world example_config
             (request_from "9.9.9.9" "TestAgent/1.0" ++ [newline]) ["y"] in
  fst (main w) = Ret tt /\
  config_lines_after (main w) =
    Some (["<Directory /var/www/>" ++ [newline]] ++ begin_line ::
          ["Allow from 10.0.0.5" ++ [newline]; "# comment" ++ [newline]] ++
          block_lines (ctimes w) (ticks w) (run_entries example_config w) ++
          end_line :: ["</Directory>" ++ [newline]]).
Proof.
  cbv zeta.
  refine (@granted_requests_written
            (example_world example_config
               (request_from "9.9.9.9" "TestAgent/1.0" ++ [newline]) ["y"])
            example_config "y" [] _ _ _ _ _ example_region eq_refl eq_refl _ eq_refl
            (or_introl eq_refl) _).
  - vm_compute. intro H. discriminate H.
  - intro n. apply no_newline_forallb. reflexivity.
Defined.

(* ================================================================== *)
(** * Reading back what was written *)
(* ================================================================== *)

Section GreedyFacts.
Variable R : Type.

(** A greedy repetition takes a whole run of the class when the run is
    within its bounds, cannot be extended and the rest of the pattern
    goes through behind it. *)
Lemma rep_greedy_max (p : ascii -> bool) (s1 : pystr) :
  forall lo hi (s2 : pystr) (k : pystr -> option R) res,
    Forall (fun c => p c = true) s1 ->
    in_range lo hi (length s1) ->
    stops p s2 \/ hi = Some (length s1) ->
    k s2 = Some res ->
    rep_greedy p lo hi (s1 ++ s2) k = Some res.
Proof.
  induction s1 as [|c s1 IH]; intros lo hi s2 k res Hall Hrange Hstop Hk.
  - destruct Hrange as [Hlo _]. simpl in Hlo. assert (lo = 0) by lia. subst lo.
    simpl. destruct s2 as [|c s2]; simpl; [exact Hk|].
    destruct Hstop as [Hstop| ->]; simpl in *.
    + now rewrite Hstop.
    + now rewrite andb_false_r.
  - inversion Hall as [|? ? Hc Hall']; subst.
    apply in_range_pred in Hrange. destruct Hrange as [Hroom Hrange].
    simpl. rewrite Hc, Hroom. simpl.
    rewrite (IH (pred lo) (option_map pred hi) s2 k res); auto.
    destruct Hstop as [Hstop| ->]; [now left | right; reflexivity].
Qed.
End GreedyFacts.

Lemma octet_in_range (d : pystr) : octet d -> in_range 1 (Some 3) (length d).
Proof. intros [_ H]. unfold in_range. lia. Qed.

Lemma quad_takes_all (R : Type) (d1 d2 d3 d4 rest : pystr) (c : captures)
      (k : pystr -> captures -> option R) (res : R) :
  octet d1 -> octet d2 -> octet d3 -> octet d4 ->
  stops is_digit rest ->
  k rest c = Some res ->
  re_match (between 1 3 is_digit · literal "." · between 1 3 is_digit · literal "." ·
            between 1 3 is_digit · literal "." · between 1 3 is_digit)%re
           (d1 ++ "." ++ d2 ++ "." ++ d3 ++ "." ++ d4 ++ rest) c k = Some res.
Proof.
  intros H1 H2 H3 H4 Hrest Hk.
  cbn [re_match between literal].
  apply rep_greedy_max; [apply H1 | now apply octet_in_range | left; reflexivity|].
  cbn [app]. change (exactly "."%char "."%char) with true. cbv iota.
  apply rep_greedy_max; [apply H2 | now apply octet_in_range | left; reflexivity|].
  cbn [app]. change (exactly "."%char "."%char) with true. cbv iota.
  apply rep_greedy_max; [apply H3 | now apply octet_in_range | left; reflexivity|].
  cbn [app]. change (exactly "."%char "."%char) with true. cbv iota.
  apply rep_greedy_max; [apply H4 | now apply octet_in_range | now left|].
  exact Hk.
Qed.

(** [ipRegex] on a dotted quad that no digit follows takes the whole
    of it. *)
Lemma ipRegex_takes_quad (R : Type) (d1 d2 d3 d4 rest : pystr) (c : captures)
      (k : pystr -> captures -> option R) (res : R) :
  octet d1 -> octet d2 -> octet d3 -> octet d4 ->
  stops is_digit rest ->
  k rest ((1, d1 ++ "." ++ d2 ++ "." ++ d3 ++ "." ++ d4) :: c) = Some res ->
  re_match ipRegex (d1 ++ "." ++ d2 ++ "." ++ d3 ++ "." ++ d4 ++ rest) c k = Some res.
Proof.
  intros H1 H2 H3 H4 Hrest Hk.
  unfold ipRegex.
  change (re_match (Grp 1 ?r) ?s c k)
    with (re_match r s c
            (fun s' c' => k s' ((1, firstn (length s - length s') s) :: c'))).
  apply quad_takes_all; auto. cbv beta.
  replace (d1 ++ "." ++ d2 ++ "." ++ d3 ++ "." ++ d4 ++ rest)
    with ((d1 ++ "." ++ d2 ++ "." ++ d3 ++ "." ++ d4) ++ rest)
    by (now rewrite <- !app_assoc).
  now rewrite firstn_consumed.
Qed.

Lemma allowed_ip_of_allow_line (item : IpRequest) :
  dotted_quad (ip item) -> allowed_ip (allow_line item) = Some (ip item).
Proof.
  intros (d1 & d2 & d3 & d4 & Hip & H1 & H2 & H3 & H4).
  unfold allowed_ip, allow_line, re_search. rewrite Hip.
  assert (Hm : re_match allowFromRegex
                 ("Allow from " ++ (d1 ++ "." ++ d2 ++ "." ++ d3 ++ "." ++ d4) ++
                  [newline]) [] (fun _ c0 => Some c0) =
               Some [(1, d1 ++ "." ++ d2 ++ "." ++ d3 ++ "." ++ d4)]).
  { change (re_match allowFromRegex ("Allow from " ++ ?s) [] ?k)
      with (re_match ipRegex s [] k).
    rewrite <- !app_assoc.
    apply ipRegex_takes_quad; auto. reflexivity. }
  change ("Allow from " ++ ?s) with ("A"%char :: "llow from " ++ s) in *.
  cbn [search_from]. rewrite Hm. reflexivity.
Qed.

Lemma region_authorized cl before b inside e after :
  managed_region cl before b inside e after ->
  forall a, In a (authorizedIps (scan_config cl)) <->
            exists line, In line inside /\ allowed_ip line = Some a.
Proof.
  intros [-> Hb Hb' He He' H1 H2 H3]. unfold scan_config.
  rewrite fold_left_app, (fold_scan_outside scan_init H1 eq_refl). simpl.
  assert (E1 : scan_step scan_init b =
               {| safety := 1; insideScriptSection := 1; lines := [];
                  authorizedIps := []; scan_out := [] |}).
  { unfold scan_step. fold (is_begin b). now rewrite Hb. }
  rewrite E1, fold_left_app. simpl.
  set (st0 := {| safety := 1; insideScriptSection := 1; lines := [];
                 authorizedIps := []; scan_out := [] |}).
  destruct (fold_scan_inside st0 H2 eq_refl) as (Hin & _ & Hfl).
  set (st1 := fold_left scan_step inside st0) in *.
  assert (E2 : authorizedIps (fold_left scan_step after (scan_step st1 e)) =
               authorizedIps st1).
  { unfold scan_step at 2. fold (is_begin e) (is_end e). rewrite He', He. simpl.
    now rewrite fold_scan_outside. }
  rewrite E2. intro a. rewrite Hin. simpl. tauto.
Qed.

Lemma managed_region_extend cl before b inside e after (blocks : list pystr) :
  managed_region cl before b inside e after ->
  Forall no_marker blocks ->
  managed_region (before ++ b :: inside ++ blocks ++ e :: after)
                 before b (inside ++ blocks) e after.
Proof.
  intros [_ Hb Hb' He He' H1 H2 H3] Hblocks.
  constructor; auto.
  - now rewrite <- app_assoc.
  - apply Forall_app. now split.
Qed.

Lemma allow_line_in_blocks (clock : nat -> pystr) (t : nat) (es : list IpRequest)
      (item : IpRequest) :
  In item es -> In (allow_line item) (block_lines clock t es).
Proof.
  revert t. induction es as [|x es IH]; intros t H; [contradiction|].
  cbn [block_lines]. destruct H as [->|H].
  - right. right. now left.
  - right. right. right. now apply IH.
Qed.

(** X15: reading back what the write step wrote: when the lines of the
    new blocks hold no marker text, the config file with the blocks in
    it has a valid managed region again, every address that was
    authorized still is, and every granted address of the dotted form
    is now authorized. *)
Theorem granted_addresses_are_read_back cl before b inside e after
        (clock : nat -> pystr) (t : nat) (es : list IpRequest) :
  managed_region cl before b inside e after ->
  Forall no_marker (block_lines clock t es) ->
  let cl' := before ++ b :: inside ++ block_lines clock t es ++ e :: after in
  safety (scan_config cl') = 2 /\
  (forall a, In a (authorizedIps (scan_config cl)) ->
             In a (authorizedIps (scan_config cl'))) /\
  (forall item, In item es -> dotted_quad (ip item) ->
                In (ip item) (authorizedIps (scan_config cl'))).
Proof.
  intros Hreg Hblocks cl'.
  pose proof (managed_region_extend Hreg Hblocks) as Hreg'. fold cl' in Hreg'.
  split; [exact (managed_region_safety Hreg')|]. split.
  - intros a Ha. apply (region_authorized Hreg) in Ha.
    destruct Ha as (line & Hline & Hal).
    apply (region_authorized Hreg'). exists line. split; [|assumption].
    apply in_or_app. now left.
  - intros item Hitem Hquad. apply (region_authorized Hreg').
    exists (allow_line item). split.
    + apply in_or_app. right. now apply allow_line_in_blocks.
    + now apply allowed_ip_of_allow_line.
Qed.

Lemma filter_none {A} (f : A -> bool) (l : list A) :
  (forall x, In x l -> f x = false) -> filter f l = [].
Proof.
  induction l as [|x l IH]; simpl; intro H; [reflexivity|].
  rewrite (H x (or_introl eq_refl)). apply IH. intros y Hy. apply H. now right.
Qed.

(** X16: a second run finds nothing new: after a run that granted its
    pending requests (valid managed region, answer y or Y, every pending
    address of the dotted form, no marker text in the new lines), the
    config file it left passes the marker test again and, for the same
    recent log lines, no request is pending any more. *)
Theorem second_run_finds_nothing_new (w : World) (content answer : pystr)
        (rest : list pystr) before b inside e after :
  managed_region (readlines content) before b inside e after ->
  files w configFilePath = Some content ->
  backup_dir w = true ->
  run_entries content w <> [] ->
  stdin w = answer :: rest ->
  affirmative answer ->
  (forall n, no_newline (ctimes w n)) ->
  Forall no_marker (block_lines (ctimes w) (ticks w) (run_entries content w)) ->
  (forall item, In item (run_entries content w) -> dotted_quad (ip item)) ->
  exists written,
    files (snd (main w)) configFilePath = Some written /\
    safety (scan_config (readlines written)) = 2 /\
    run_ips written w = [] /\
    run_entries written w = [].
Proof.
  intros Hreg Hf Hb Hes Hin Hyes Hclock Hblocks Hquads.
  assert (Hips : run_ips content w <> []).
  { unfold run_ips. rewrite pending_ips_entries. intro E.
    apply map_eq_nil in E. contradiction. }
  rewrite (main_after_yes w Hf Hb (managed_region_safety Hreg) Hips Hin Hyes).
  assert (Hf' : files (answered content (run_ips content w) rest w) configFilePath
                = Some content) by exact Hf.
  rewrite (write_config_splice _ (run_entries content w) Hf'
             (find_insertIndex_region Hreg)).
  cbn [snd]. rewrite files_written_world, pystr_eqb_refl.
  change (ctimes (answered content (run_ips content w) rest w)) with (ctimes w).
  change (ticks (answered content (run_ips content w) rest w)) with (ticks w).
  eexists. split; [reflexivity|].
  assert (Hlines :
            readlines
              (join (firstn (length (before ++ b :: inside)) (readlines content)) ++
               new_content (ctimes w) (ticks w) (run_entries content w) ++
               join (skipn (length (before ++ b :: inside)) (readlines content))) =
            before ++ b :: inside ++
            block_lines (ctimes w) (ticks w) (run_entries content w) ++ e :: after).
  { rewrite new_content_join.
    apply region_lines_after_write; [exact Hreg|].
    apply block_lines_are_lines; [assumption|].
    intros item Hitem. now apply pending_entries_no_newline in Hitem. }
  pose proof (managed_region_extend Hreg Hblocks) as Hreg'.
  assert (Hnone : run_ips
                    (join (firstn (length (before ++ b :: inside)) (readlines content)) ++
                     new_content (ctimes w) (ticks w) (run_entries content w) ++
                     join (skipn (length (before ++ b :: inside))
                                 (readlines content))) w = []).
  { unfold run_ips at 1. rewrite Hlines. unfold pending_ips, drop_authorized_ips.
    apply filter_none. intros x Hx. apply negb_false_iff. apply py_in_In.
    destruct (py_in x (authorizedIps (scan_config (readlines content)))) eqn:Hold.
    - apply py_in_In in Hold. apply (region_authorized Hreg) in Hold.
      destruct Hold as (line & Hline & Hal).
      apply (region_authorized Hreg'). exists line. split; [|assumption].
      apply in_or_app. now left.
    - assert (Hpend : In x (run_ips content w)).
      { unfold run_ips, pending_ips, drop_authorized_ips. apply filter_In.
        split; [assumption | now rewrite Hold]. }
      unfold run_ips in Hpend. rewrite pending_ips_entries in Hpend.
      apply in_map_iff in Hpend. destruct Hpend as (item & <- & Hitem).
      apply (region_authorized Hreg'). exists (allow_line item). split.
      + apply in_or_app. right. now apply allow_line_in_blocks.
      + apply allowed_ip_of_allow_line. now apply Hquads. }
  split; [|split].
  - rewrite Hlines. exact (managed_region_safety Hreg').
  - exact Hnone.
  - unfold run_ips in Hnone. rewrite pending_ips_entries in Hnone.
    now apply map_eq_nil in Hnone.
Qed.

(* ================================================================== *)
(** * The list [lines] *)
(* ================================================================== *)

Lemma remove_newlines_no_newline (s : pystr) : no_newline (remove_newlines s).
Proof.
  unfold no_newline, remove_newlines. intro H. apply filter_In in H.
  destruct H as [_ H]. now rewrite Ascii.eqb_refl in H.
Qed.

Lemma remove_newlines_line (body : pystr) :
  no_newline body -> remove_newlines (body ++ [newline]) = body.
Proof.
  unfold remove_newlines. intro H.
  induction body as [|c body IH]; simpl; [reflexivity|].
  apply no_newline_cons in H. destruct H as [Hc H]. rewrite Hc. simpl.
  now rewrite IH.
Qed.

Lemma scan_inside_lines (st : ScanState) (line : pystr) :
  lines (scan_inside_unguarded st line) = lines st ++ [remove_newlines line].
Proof.
  unfold scan_inside_unguarded.
  destruct (re_search allowFromRegex line); [|reflexivity].
  destruct (py_in _ _); reflexivity.
Qed.

Lemma fold_scan_lines (l : list pystr) (st : ScanState) :
  Forall no_marker l -> insideScriptSection st = 1 ->
  lines (fold_left scan_step l st) = lines st ++ map remove_newlines l.
Proof.
  intro Hl. revert st. induction Hl as [|line l Hline _ IH]; intros st Hst; simpl.
  - now rewrite app_nil_r.
  - rewrite scan_step_inside by assumption.
    destruct (scan_inside_authorized st line) as (_ & _ & Hfl).
    rewrite IH by congruence. rewrite scan_inside_lines, <- app_assoc. reflexivity.
Qed.

(** X17: on a config file with a valid managed region the list [lines]
    ends as the lines strictly inside the region, in order, each without
    its newline; the marker lines and the lines outside are not in
    it. *)
Theorem lines_are_the_region cl before b inside e after :
  managed_region cl before b inside e after ->
  lines (scan_config cl) = map remove_newlines inside /\
  Forall no_newline (lines (scan_config cl)) /\
  (Forall is_line inside ->
   forall k line, nth_error inside k = Some line ->
                  nth_error (lines (scan_config cl)) k = Some (removelast line)).
Proof.
  intros [-> Hb Hb' He He' H1 H2 H3]. unfold scan_config.
  rewrite fold_left_app, (fold_scan_outside scan_init H1 eq_refl). simpl.
  assert (E1 : scan_step scan_init b =
               {| safety := 1; insideScriptSection := 1; lines := [];
                  authorizedIps := []; scan_out := [] |}).
  { unfold scan_step. fold (is_begin b). now rewrite Hb. }
  rewrite E1, fold_left_app. simpl.
  set (st0 := {| safety := 1; insideScriptSection := 1; lines := [];
                 authorizedIps := []; scan_out := [] |}).
  pose proof (fold_scan_lines st0 H2 eq_refl) as Hlines.
  destruct (fold_scan_inside st0 H2 eq_refl) as (_ & _ & Hfl).
  set (st1 := fold_left scan_step inside st0) in *.
  assert (E2 : lines (fold_left scan_step after (scan_step st1 e)) = lines st1).
  { unfold scan_step at 2. fold (is_begin e) (is_end e). rewrite He', He. simpl.
    now rewrite fold_scan_outside. }
  rewrite E2, Hlines. simpl. split; [reflexivity|]. split.
  - apply Forall_forall. intros x Hx. apply in_map_iff in Hx.
    destruct Hx as (y & <- & _). apply remove_newlines_no_newline.
  - intros Hall k line Hk. rewrite nth_error_map, Hk. simpl. f_equal.
    rewrite Forall_forall in Hall.
    destruct (Hall line (nth_error_In _ _ Hk)) as (body & -> & Hbody).
    rewrite remove_newlines_line by assumption.
    now rewrite removelast_last.
Qed.

(** The example config: [lines] holds the directive and the comment. *)
Lemma lines_are_the_region_witness :
  lines (scan_config (readlines example_config)) =
  ["Allow from 10.0.0.5"; "# comment"].
Proof.
  exact (proj1 (lines_are_the_region example_region)).
Defined.

(** The block of one granted request on the example config is read
    back. *)
Lemma granted_addresses_are_read_back_witness :
  In "9.9.9.9"
     (authorizedIps
        (scan_config
           (["<Directory /var/www/>" ++ [newline]] ++ begin_line ::
            ["Allow from 10.0.0.5" ++ [newline]; "# comment" ++ [newline]] ++
            block_lines (fun _ => "Mon Jul 20 10:00:00 2015") 0 [example_entry] ++
            end_line :: ["</Directory>" ++ [newline]]))).
Proof.
  assert (Hblocks : Forall no_marker
                      (block_lines (fun _ => "Mon Jul 20 10:00:00 2015") 0
                                   [example_entry]))
    by (repeat constructor; vm_compute; reflexivity).
  refine (proj2 (proj2 (granted_addresses_are_read_back
                          (fun _ => "Mon Jul 20 10:00:00 2015") 0 [example_entry]
                          example_region Hblocks))
                example_entry (or_introl eq_refl) _).
  exists "9", "9", "9", "9". repeat split; repeat constructor.
Defined.

(** After the end-to-end example, the same log yields nothing. *)
Lemma second_run_finds_nothing_new_witness :
  let w := example_world example_config
             (request_from "9.9.9.9" "TestAgent/1.0" ++ [newline]) ["y"] in
  exists written,
    files (snd (main w)) configFilePath = Some written /\
    safety (scan_config (readlines written)) = 2 /\
    run_ips written w = [] /\
    run_entries written w = [].
Proof.
  cbv zeta.
  refine (@second_run_finds_nothing_new
            (example_world example_config
               (request_from "9.9.9.9" "TestAgent/1.0" ++ [newline]) ["y"])
            example_config "y" [] _ _ _ _ _ example_region eq_refl eq_refl _ eq_refl
            (or_introl eq_refl) _ _ _).
  - vm_compute. intro H. discriminate H.
  - intro n. apply no_newline_forallb. reflexivity.
  - assert (E : run_entries example_config
                  (example_world example_config
                     (request_from "9.9.9.9" "TestAgent/1.0" ++ [newline]) ["y"]) =
                [example_entry]) by (vm_compute; reflexivity).
    rewrite E. repeat constructor; vm_compute; reflexivity.
  - intros item Hitem. vm_compute in Hitem. destruct Hitem as [<-|[]].
    exists "9", "9", "9", "9". repeat split; repeat constructor.
Defined.

(* ================================================================== *)
(** * The Allow-from pattern, declaratively *)
(* ================================================================== *)

Section CaptureValues.
Variable R : Type.

End CaptureValues.


















(* ================================================================== *)
(** * The access-log format and the unanchored search *)
(* ================================================================== *)

(** A string of the access-log format ends with a double quote. *)
Lemma log_format_ends_with_quote (s : pystr) :
  in_log_format s -> exists s', s = s' ++ [dquote].
Proof.
  unfold in_log_format, accessLogRegex. intro H.
  repeat (apply matches_cat_inv in H;
          let s1 := fresh "s" in let s2 := fresh "s" in
          let E := fresh "E" in let H1 := fresh "H" in
          destruct H as (s1 & s2 & E & H1 & H)).
  apply matches_cls_inv in H. destruct H as (c & -> & Hc).
  apply Ascii.eqb_eq in Hc. subst.
  repeat rewrite app_assoc. eexists. reflexivity.
Qed.

(** The example line with text before and behind it is not a line of
    the access-log format, and yet it gives the entry of the example:
    the specification's wording gives none. *)
Lemma junk_around_record_gives_entry :
  ~ in_log_format junk_log_line /\
  (exists e, parse_requests [junk_log_line] = ([e], [ip e]) /\
             ip e = "1.2.3.4" /\ userAgent e = "TestAgent/1.0") /\
  log_step ([], []) junk_log_line <> ([], []).
Proof.
  split; [|split].
  - intro H. apply log_format_ends_with_quote in H. destruct H as (s' & E).
    assert (Hlast : last junk_log_line dquote = last (s' ++ [dquote]) dquote)
      by (now rewrite E).
    rewrite last_last in Hlast. vm_compute in Hlast. discriminate Hlast.
  - exists {| ip := "1.2.3.4"; identd := []; remoteUser := [];
              date := "10/Jul/2015"; time := "10:00:00"; timezone := "+0000";
              request := []; status := []; size := 0;
              userAgent := "TestAgent/1.0" |}.
    split; [vm_compute; reflexivity|]. split; reflexivity.
  - vm_compute. intro H. discriminate H.
Qed.
